(** * powa.sql: a shallow embedding of powa/sql/__init__.py

  The module turns raw predicate ("qual") statistics into named
  objects, proposes hypothetical indexes and scores them.  Each Python
  function is embedded as a Rocq function of the same name; exceptions
  are values of [result], the database connection is a pair of
  functions together with a log of the statements it was asked to
  run, Python floats are the kernel's binary64 floats.  A [str] is a
  [string]: its characters when they are all ASCII, which is what the
  operations that look at the class of a character assume, and its
  UTF-8 bytes otherwise, which is enough where text is only copied,
  joined or searched for a piece of text.  Where Python 2 and Python 3
  differ ([round], [str] of a float) the embedding follows Python 3. *)

From Stdlib Require Import ZArith Ascii String List Bool Lia.
From Stdlib Require Import PrimFloat SpecFloat.
From Stdlib Require FloatOps FloatAxioms.
From stdpp Require Import base option list gmap sets strings pretty.

Local Open Scope Z_scope.

(** ** Python exceptions and the two monads of the embedding *)

Module Py.

(** The exception classes the module can raise or let through. *)
Inductive exn : Type :=
| StopIteration
| ValueError
| TypeError
| KeyError
| IndexError
| ZeroDivisionError
| OverflowError
| CompileError.

Global Instance exn_eq_dec : EqDecision exn.
Proof. solve_decision. Defined.

Inductive result (A : Type) : Type :=
| Ok (a : A)
| Raise (e : exn).
Arguments Ok {A} a.
Arguments Raise {A} e.

Global Instance result_ret : MRet result := fun A a => Ok a.
Global Instance result_bind : MBind result := fun A B k r =>
  match r with
  | Ok a => k a
  | Raise e => Raise e
  end.

(** Code that also changes an object: the object's state [S] is
    threaded through, and an exception leaves the state as it was when
    it was raised. *)
Definition M (S A : Type) : Type := S -> result A * S.

Global Instance M_ret {S} : MRet (M S) := fun A a s => (Ok a, s).
Global Instance M_bind {S} : MBind (M S) := fun A B k m s =>
  match m s with
  | (Ok a, s') => k a s'
  | (Raise e, s') => (Raise e, s')
  end.

Definition raise {S A} (e : exn) : M S A := fun s => (Raise e, s).
Definition lift {S A} (r : result A) : M S A := fun s => (r, s).

(** [try: m except e: h] *)
Definition try_except {S A} (m : M S A) (e : exn) (h : M S A) : M S A :=
  fun s =>
    match m s with
    | (Raise e', s') => if decide (e' = e) then h s' else (Raise e', s')
    | r => r
    end.

(** *** Numbers

    A Python number is an [int] (unbounded) or a [float] (IEEE binary64,
    the kernel's primitive floats).  The operations below are the ones
    the module applies to numbers: [float()], [abs], [*], [>],
    [round(x, 2)] and [str]; [float()] is also applied to strings. *)

Inductive pynum : Type :=
| PyInt (z : Z)
| PyFloat (f : float).

(** The float nearest to the rational [p/q] (ties to even), for
    [0 <= p] and [0 < q], with sign [s]: the quotient is taken with more
    than 60 bits and a sticky last bit, then rounded once. *)
Definition nearest_float (s : bool) (p q : Z) : spec_float :=
  let sh := Z.max 0 (64 + Z.log2 q - Z.log2 p) in
  let n := p * 2 ^ sh in
  let m := 2 * (n / q) + (if n mod q =? 0 then 0 else 1) in
  match m with
  | Zpos m' => binary_round FloatOps.prec FloatOps.emax s m' (- sh - 1)
  | _ => S754_zero s
  end.

(** [float(n)]: an int too large for a double is an OverflowError. *)
Definition float_of_int (z : Z) : result float :=
  match nearest_float (z <? 0) (Z.abs z) 1 with
  | S754_infinity _ => Raise OverflowError
  | sf => Ok (FloatOps.SF2Prim sf)
  end.

(** [float(n)] for a number. *)
Definition float_of_num (n : pynum) : result float :=
  match n with
  | PyInt z => float_of_int z
  | PyFloat f => Ok f
  end.

(** *** Text

    Where Python looks at the class of a character (a digit for [\d]
    and for [float()], white space for [float()]) the embedding knows
    the ASCII members of the class only, so what is proved about such
    an operation is proved of ASCII text, and says so. *)
Definition ascii_char (c : ascii) : bool := (nat_of_ascii c <? 128)%nat.

Fixpoint ascii_text (s : string) : bool :=
  match s with
  | EmptyString => true
  | String c s' => ascii_char c && ascii_text s'
  end.

(** *** [float(s)] for a string

    White space at both ends is dropped; an underscore may stand
    between two digits; what is left is a sign and [inf], [infinity] or
    [nan] in any case, or a sign and a decimal number with an optional
    exponent.  Anything else is a ValueError.  The number is rounded to
    the nearest float, ties to even; a number too large is an infinity
    and one too small a zero, without any exception. *)
Definition is_space (c : ascii) : bool :=
  let n := nat_of_ascii c in ((9 <=? n) && (n <=? 13) || (n =? 32))%nat.

Definition is_decimal (c : ascii) : bool :=
  let n := nat_of_ascii c in ((48 <=? n) && (n <=? 57))%nat.

Definition lower (c : ascii) : ascii :=
  let n := nat_of_ascii c in
  if ((65 <=? n) && (n <=? 90))%nat then ascii_of_nat (n + 32) else c.

Fixpoint drop_spaces (s : list ascii) : list ascii :=
  match s with
  | c :: s' => if is_space c then drop_spaces s' else s
  | [] => []
  end.

Definition strip (s : list ascii) : list ascii :=
  rev (drop_spaces (rev (drop_spaces s))).

(** The text without its underscores, when each of them stands after a
    digit and before a digit; [prev] is the character before [s]. *)
Fixpoint without_underscores (prev : ascii) (s : list ascii)
  : option (list ascii) :=
  match s with
  | [] => if Ascii.eqb prev "_" then None else Some []
  | c :: s' =>
      if Ascii.eqb c "_" then
        if is_decimal prev then without_underscores c s' else None
      else if Ascii.eqb prev "_" && negb (is_decimal c) then None
      else option_map (cons c) (without_underscores c s')
  end.

(** The digits a text starts with, and what follows them. *)
Fixpoint span_decimal (s : list ascii) : list ascii * list ascii :=
  match s with
  | c :: s' =>
      if is_decimal c
      then let '(d, rest) := span_decimal s' in (c :: d, rest)
      else ([], s)
  | [] => ([], [])
  end.

Definition digits_value (d : list ascii) : Z :=
  fold_left (fun n c => 10 * n + (Z.of_nat (nat_of_ascii c) - 48)) d 0.

(** An optional sign. *)
Definition take_sign (s : list ascii) : bool * list ascii :=
  match s with
  | "-"%char :: s' => (true, s')
  | "+"%char :: s' => (false, s')
  | _ => (false, s)
  end.

(** The exponent part: nothing, or [e] or [E], an optional sign and
    one digit at least, up to the end of the text. *)
Definition exponent_value (s : list ascii) : option Z :=
  match s with
  | [] => Some 0
  | c :: s' =>
      if Ascii.eqb (lower c) "e" then
        let '(neg, s'') := take_sign s' in
        match span_decimal s'' with
        | ((_ :: _) as d, []) =>
            Some (if neg : bool then - digits_value d else digits_value d)
        | _ => None
        end
      else None
  end.

(** The float nearest to [mant * 10^ex], for [0 <= mant].  The bounds
    on the size are taken before any power is computed: above
    [10^310] every number is an infinity, below [10^-330] a zero. *)
Definition decimal_float (neg : bool) (mant ex : Z) : float :=
  if mant =? 0 then FloatOps.SF2Prim (S754_zero neg)
  else
    let bits := Z.log2 mant in
    if 310 <? bits * 30102 / 100000 + ex
    then FloatOps.SF2Prim (S754_infinity neg)
    else if (bits + 1) * 30103 / 100000 + 1 + ex <? -330
    then FloatOps.SF2Prim (S754_zero neg)
    else if 0 <=? ex
    then FloatOps.SF2Prim (nearest_float neg (mant * 10 ^ ex) 1)
    else FloatOps.SF2Prim (nearest_float neg mant (10 ^ (- ex))).

Definition float_of_str (s : string) : result float :=
  match without_underscores "000"%char (strip (list_ascii_of_string s)) with
  | None => Raise ValueError
  | Some text =>
      let '(neg, body) := take_sign text in
      let word := string_of_list_ascii (map lower body) in
      if String.eqb word "inf" || String.eqb word "infinity"
      then Ok (FloatOps.SF2Prim (S754_infinity neg))
      else if String.eqb word "nan" then Ok (FloatOps.SF2Prim S754_nan)
      else
        let '(whole, rest) := span_decimal body in
        let '(fraction, rest) :=
          match rest with
          | "."%char :: rest' => span_decimal rest'
          | _ => ([], rest)
          end in
        match whole ++ fraction, exponent_value rest with
        | (_ :: _) as d, Some ex =>
            Ok (decimal_float neg (digits_value d)
                  (ex - Z.of_nat (length fraction)))
        | _, _ => Raise ValueError
        end
  end.

(** [x / y] on floats: a zero divisor is a ZeroDivisionError, anything
    else is the IEEE quotient. *)
Definition float_truediv (x y : float) : result float :=
  if PrimFloat.eqb y 0%float then Raise ZeroDivisionError
  else Ok (PrimFloat.div x y).

(** The magnitude of a finite non-zero float [m * 2^e] as a fraction. *)
Definition magnitude (m : positive) (e : Z) : Z * Z :=
  if 0 <=? e then (Zpos m * 2 ^ e, 1) else (Zpos m, 2 ^ (- e)).

Definition round_half_even (a b : Z) : Z :=
  let d := a / b in
  match (2 * (a mod b)) ?= b with
  | Lt => d
  | Gt => d + 1
  | Eq => if Z.even d then d else d + 1
  end.

(** [round(x, 2)] (Python 3): the exact value of [x] is rounded to two
    decimals, ties to even, and the decimal obtained is read back as
    the nearest float; zeros, infinities and nans round to themselves. *)
Definition py_round2 (x : float) : float :=
  match FloatOps.Prim2SF x with
  | S754_finite s m e =>
      let '(p, q) := magnitude m e in
      FloatOps.SF2Prim (nearest_float s (round_half_even (100 * p) q) 100)
  | _ => x
  end.

(** *** [repr] of a float

    The shortest decimal that reads back as the float and, among those,
    the nearest to it; printed with an exponent when the decimal point
    would fall more than 16 digits to the right or 4 or more zeros to
    the left of the digits, and with a closing ".0" otherwise when
    there is no fraction. *)

(** [a/b <= c/d] and [a/b < c/d] for positive denominators. *)
Definition frac_le (x y : Z * Z) : bool := fst x * snd y <=? fst y * snd x.
Definition frac_lt (x y : Z * Z) : bool := fst x * snd y <? fst y * snd x.

(** [d * 10^k] as a fraction. *)
Definition decimal (d k : Z) : Z * Z :=
  if 0 <=? k then (d * 10 ^ k, 1) else (d, 10 ^ (- k)).

(** The least [t], from [t0] on, with [p/q < 10^t]. *)
Fixpoint decimal_point (fuel : nat) (t : Z) (x : Z * Z) : Z :=
  match fuel with
  | O => t
  | S fuel' =>
      if frac_lt x (decimal 1 t) then t else decimal_point fuel' (t + 1) x
  end.

(** A [t] below the decimal point of [p/q], at most three short of
    it, from the sizes of [p] and [q] in bits. *)
Definition decimal_point_below (x : Z * Z) : Z :=
  (Z.log2 (fst x) - Z.log2 (snd x) - 1) * 30103 / 100000 - 1.

(** The reals that round to the float [m * 2^e]: from half the gap
    below to half the gap above, the ends included when [m] is even. *)
Definition rounds_to (m : positive) (e : Z) (y : Z * Z) : bool :=
  let '(p, q) := magnitude m e in
  let u := if 0 <=? e then 2 ^ e else 1 in
  let below :=
    if (Zpos m =? 2 ^ 52) && (FloatOps.emin <? e) then u else 2 * u in
  let lo := (4 * p - below, 4 * q) in
  let hi := (4 * p + 2 * u, 4 * q) in
  if Z.even (Zpos m)
  then frac_le lo y && frac_le y hi
  else frac_lt lo y && frac_lt y hi.

(** Distance of two fractions, as a fraction. *)
Definition frac_dist (x y : Z * Z) : Z * Z :=
  (Z.abs (fst x * snd y - fst y * snd x), snd x * snd y).

(** The candidates with [n] digits are the two neighbours of the value
    on the grid of step [10^(t-n)]; when both read back as the float
    the nearer one is taken, and the one with the even last digit when
    the value is half way between them. *)
Definition candidate (m : positive) (e t n : Z) : option (Z * Z) :=
  let x := magnitude m e in
  let k := t - n in
  let '(a, b) := x in
  let d := if 0 <=? k then a / (b * 10 ^ k) else (a * 10 ^ (- k)) / b in
  let down := rounds_to m e (decimal d k) in
  let up := rounds_to m e (decimal (d + 1) k) in
  match down, up with
  | false, false => None
  | true, false => Some (d, k)
  | false, true => Some (d + 1, k)
  | true, true =>
      let below := frac_dist x (decimal d k) in
      let above := frac_dist x (decimal (d + 1) k) in
      if frac_lt below above then Some (d, k)
      else if frac_lt above below then Some (d + 1, k)
      else if Z.even d then Some (d, k) else Some (d + 1, k)
  end.

Fixpoint shortest (fuel : nat) (m : positive) (e t n : Z) : Z * Z :=
  match fuel with
  | O => (Zpos m, 0)
  | S fuel' =>
      match candidate m e t n with
      | Some dk => dk
      | None => shortest fuel' m e t (n + 1)
      end
  end.

Fixpoint strip_zeros_rev (s : list ascii) : list ascii :=
  match s with
  | "0"%char :: s' => strip_zeros_rev s'
  | _ => s
  end.

Definition strip_trailing_zeros (s : string) : string :=
  string_of_list_ascii
    (rev (strip_zeros_rev (rev (list_ascii_of_string s)))).

Fixpoint zeros (n : nat) : string :=
  match n with
  | O => EmptyString
  | S n' => String "0"%char (zeros n')
  end.

(** The digits and the position of the decimal point: the value is
    [0.digits * 10^decpt]. *)
Definition shortest_digits (m : positive) (e : Z) : string * Z :=
  let x := magnitude m e in
  let t := decimal_point 8 (decimal_point_below x) x in
  let '(d, k) := shortest 17 m e t 1 in
  let all := pretty d in
  (strip_trailing_zeros all, Z.of_nat (String.length all) + k).

Definition exponent_suffix (ex : Z) : string :=
  let a := pretty (Z.abs ex) in
  "e" +:+ (if ex <? 0 then "-" else "+")
      +:+ (if Z.abs ex <? 10 then "0" +:+ a else a).

Definition format_repr (digits : string) (decpt : Z) : string :=
  let len := Z.of_nat (String.length digits) in
  if (decpt <=? -4) || (16 <? decpt) then
    match digits with
    | String c EmptyString => String c EmptyString
    | String c rest => String c ("." +:+ rest)
    | EmptyString => EmptyString
    end +:+ exponent_suffix (decpt - 1)
  else if decpt <=? 0 then
    "0." +:+ zeros (Z.to_nat (- decpt)) +:+ digits
  else if len <=? decpt then
    digits +:+ zeros (Z.to_nat (decpt - len)) +:+ ".0"
  else
    String.substring 0 (Z.to_nat decpt) digits +:+ "." +:+
    String.substring (Z.to_nat decpt) (Z.to_nat (len - decpt)) digits.

Definition float_repr (f : float) : string :=
  match FloatOps.Prim2SF f with
  | S754_nan => "nan"
  | S754_infinity s => if s then "-inf" else "inf"
  | S754_zero s => if s then "-0.0" else "0.0"
  | S754_finite s m e =>
      let '(digits, decpt) := shortest_digits m e in
      (if s then "-" else "") +:+ format_repr digits decpt
  end.






End Py.
Export Py.

(** ** format_jumbled_query *)

Module Jumble.

(** [it = iter(params)]: the state of a list iterator is what is left
    of the list; [next(it)] raises StopIteration at the end. *)
Definition iterator : Type := list string.

Definition iter (params : list string) : iterator := params.

Definition next : M iterator string := fun it =>
  match it with
  | [] => raise StopIteration it
  | v :: it' => (Ok v, it')
  end.

(** [re.sub("\?", repl, s)] for a callable [repl]: the string is
    scanned from the left, [repl] is called at each question mark and
    what it returns is inserted as it is; an exception of [repl] ends
    the whole call. *)
Fixpoint re_sub_qmark {S} (repl : M S string) (s : string) : M S string :=
  match s with
  | EmptyString => mret EmptyString
  | String c s' =>
      if Ascii.eqb c "?"%char
      then v ← repl; r ← re_sub_qmark repl s'; mret (v +:+ r)
      else r ← re_sub_qmark repl s'; mret (String c r)
  end.

(** The body of the function over the iterator: the assignment to
    [sql] happens only when [re.sub] returns. *)
Definition format_jumbled_query_body (sql : string) : M iterator string :=
  try_except (re_sub_qmark next sql) StopIteration (mret sql).

Definition format_jumbled_query (sql : string) (params : list string)
  : result string :=
  fst (format_jumbled_query_body sql (iter params)).

End Jumble.

(** ** The qual model: ResolvedQual and ComposedQual *)

(** Values the module carries without looking inside: counts, ratios,
    identifiers, statistics samples ([None], a number, a string, a
    list). *)
#[warnings="-register-all"]
Inductive pyval : Type :=
| PNone
| PNum (n : pynum)
| PStr (s : string)
| PSeq (l : list pyval).

(** [float(x)]: a number, or a string that reads as one; [None] and a
    list are a TypeError. *)
Definition py_float (x : pyval) : result float :=
  match x with
  | PNum n => float_of_num n
  | PStr s => float_of_str s
  | PNone | PSeq _ => Raise TypeError
  end.

(** A value that, when it is a string, is ASCII text. *)
Definition ascii_value (x : pyval) : bool :=
  match x with
  | PStr s => ascii_text s
  | _ => true
  end.

Module ResolvedQual.

Record t : Type := {
  nspname : string;
  relname : string;
  attname : string;
  opname : string;
  indexam_names : list string;
  n_distinct : option pynum;
  most_common_values : pyval;
  null_frac : pyval;
  example_values : list pyval;
  eval_type : pyval
}.

(** ["%s.%s %s ?" % (self.relname, self.attname, self.opname)] *)
Definition __str__ (self : t) : string :=
  relname self +:+ "." +:+ attname self +:+ " " +:+ opname self +:+ " ?".


End ResolvedQual.

(** What can be handed to [ComposedQual.append]: a ResolvedQual or
    anything else. *)
Inductive pyobject : Type :=
| IsResolvedQual (q : ResolvedQual.t)
| IsOther (v : pyval).

Module ComposedQual.

Record t : Type := {
  qualid : pyval;
  relname : option string;
  nspname : option string;
  nbfiltered : pyval;
  filter_ratio : pyval;
  count : pyval;
  table_liverows : pyval;
  _quals : list ResolvedQual.t
}.

(** [ComposedQual(nspname, relname, nbfiltered, filter_ratio, count,
    table_liverows, qualid)]; every argument defaults to [None], and
    [_quals] starts empty. *)
Definition __init__ (nspname relname : option string)
    (nbfiltered filter_ratio count table_liverows qualid : pyval) : t :=
  {| qualid := qualid; relname := relname; nspname := nspname;
     nbfiltered := nbfiltered; filter_ratio := filter_ratio;
     count := count; table_liverows := table_liverows; _quals := [] |}.

Definition set__quals (self : t) (quals : list ResolvedQual.t) : t :=
  {| qualid := qualid self; relname := relname self;
     nspname := nspname self; nbfiltered := nbfiltered self;
     filter_ratio := filter_ratio self; count := count self;
     table_liverows := table_liverows self; _quals := quals |}.

(** The three assignments made from the first resolved part. *)
Definition set_relation (self : t) (rel nsp : string) (liverows : pyval)
  : t :=
  {| qualid := qualid self; relname := Some rel; nspname := Some nsp;
     nbfiltered := nbfiltered self; filter_ratio := filter_ratio self;
     count := count self; table_liverows := liverows;
     _quals := _quals self |}.

(** [append]: the only check is the element's class. *)
Definition append (self : t) (element : pyobject) : result t :=
  match element with
  | IsResolvedQual q => Ok (set__quals self (_quals self ++ [q]))
  | IsOther _ => Raise ValueError
  end.

Definition __iter__ (self : t) : list ResolvedQual.t := _quals self.

Definition __str__ (self : t) : string :=
  String.concat " AND " (ResolvedQual.__str__ <$> _quals self).

Definition where_clause (self : t) : string := "WHERE " +:+ __str__ self.

End ComposedQual.

(** ** resolve_quals *)

Module Quals.

(** A predicate reference of a row, as [to_json] gives it: object
    identifiers are strings, the attribute number is a number. *)
Record qualref : Type := {
  opno : string;
  relid : string;
  attnum : Z;
  eval_type : pyval
}.

(** What a row stores under [attribute]: a list of references, or one
    reference that is not in a list. *)
Inductive qualsval : Type :=
| QList (l : list qualref)
| QOne (v : qualref).

Record row : Type := {
  quals : qualsval;
  count : pyval;
  nbfiltered : pyval;
  filter_ratio : pyval;
  qualid : pyval
}.

(** The values of the two catalog mappings. *)
Record operator : Type := {
  name : string;
  indexams : list string;
  indexam_names : list string
}.

Record attribute : Type := {
  relname : string;
  attname : string;
  nspname : string;
  n_distinct : option pynum;
  null_frac : pyval;
  most_common_values : pyval;
  table_liverows : pyval
}.

(** The connection: what the database answers to the two statements
    ([scalar()] is [None] for an SQL NULL), and the statements executed
    so far, oldest first, each with the parameter bound to it.  The
    database answers every statement; a statement it would refuse is
    outside the embedding. *)
Record database : Type := {
  scalar_opname : gset string -> option (gmap string operator);
  scalar_attname : gset (string * Z) -> option (gmap string attribute)
}.

Inductive statement : Type :=
| RESOLVE_OPNAME (oid_list : gset string)
| RESOLVE_ATTNAME (att_list : gset (string * Z)).

Definition connection : Type := list statement.

Definition execute_opname (db : database) (oid_list : gset string)
  : M connection (option (gmap string operator)) :=
  fun log => (Ok (scalar_opname db oid_list), log ++ [RESOLVE_OPNAME oid_list]).

Definition execute_attname (db : database) (att_list : gset (string * Z))
  : M connection (option (gmap string attribute)) :=
  fun log =>
    (Ok (scalar_attname db att_list), log ++ [RESOLVE_ATTNAME att_list]).

(** [d[k]] for what [scalar()] returned: [None] cannot be subscripted,
    a missing key is a KeyError. *)
Definition subscript {V} (d : option (gmap string V)) (k : string)
  : result V :=
  match d with
  | None => Raise TypeError
  | Some m =>
      match m !! k with
      | Some v => Ok v
      | None => Raise KeyError
      end
  end.

(** *** First pass (lines 163-169) *)

(** [if not isinstance(values, list): values = [values]] *)
Definition as_list (values : qualsval) : list qualref :=
  match values with
  | QList l => l
  | QOne v => [v]
  end.

Definition look_ref (sets : gset string * gset (string * Z)) (v : qualref)
  : gset string * gset (string * Z) :=
  ({[opno v]} ∪ sets.1, {[(relid v, attnum v)]} ∪ sets.2).

Definition look_row (sets : gset string * gset (string * Z)) (r : row)
  : gset string * gset (string * Z) :=
  foldl look_ref sets (as_list (quals r)).

(** [(operator_to_look, attname_to_look)] after the first loop. *)
Definition to_look (quallist : list row)
  : gset string * gset (string * Z) :=
  foldl look_row (∅, ∅) quallist.

(** *** The two catalog lookups (lines 170-177) *)

Definition lookup_catalogs (db : database) (quallist : list row)
  : M connection
      (option (gmap string operator) * option (gmap string attribute)) :=
  let '(operator_to_look, attname_to_look) := to_look quallist in
  operators ←
    (if decide (operator_to_look = ∅) then mret (Some ∅)
     else execute_opname db operator_to_look);
  attnames ←
    (if decide (attname_to_look = ∅) then mret (Some ∅)
     else execute_attname db attname_to_look);
  mret (operators, attnames).

(** *** Second pass (lines 178-211) *)

(** What [for v in row[attribute]] goes through: the elements of a
    list, or, for an object that is not a list (a dict), its keys. *)
Inductive item : Type :=
| ItemRef (v : qualref)
| ItemKey (k : string).

Definition py_iter (values : qualsval) : list item :=
  match values with
  | QList l => ItemRef <$> l
  | QOne _ => ItemKey <$> ["relid"; "attnum"; "opno"; "eval_type"]
  end.

(** [v['relid']] needs [v] to be a reference: a key is a string, and a
    string subscripted with a string is a TypeError. *)
Definition subscriptable (v : item) : result qualref :=
  match v with
  | ItemRef r => Ok r
  | ItemKey _ => Raise TypeError
  end.

(** [[v for v in row[attribute] if v['relid'] != '0']]; only
    references pass the condition, so the list built holds references.
    The test [isinstance(values, list)] that follows it in the source
    is true of every list built this way. *)
Fixpoint comprehension (items : list item) : result (list qualref) :=
  match items with
  | [] => Ok []
  | v :: items' =>
      r ← subscriptable v;
      values ← comprehension items';
      Ok (if decide (relid r ≠ "0") then r :: values else values)
  end.

Definition attname_key (v : qualref) : string :=
  relid v +:+ "." +:+ pretty (attnum v).

Definition make_resolved (att : attribute) (op : operator) (v : qualref)
  : ResolvedQual.t :=
  {| ResolvedQual.nspname := nspname att;
     ResolvedQual.relname := relname att;
     ResolvedQual.attname := attname att;
     ResolvedQual.opname := name op;
     ResolvedQual.indexam_names := indexam_names op;
     ResolvedQual.n_distinct := n_distinct att;
     ResolvedQual.most_common_values := most_common_values att;
     ResolvedQual.null_frac := null_frac att;
     ResolvedQual.example_values := [];
     ResolvedQual.eval_type := eval_type v |}.

(** The body of [for v in values] (lines 192-210). *)
Definition resolve_part
    (operators : option (gmap string operator))
    (attnames : option (gmap string attribute))
    (newqual : ComposedQual.t) (v : qualref) : result ComposedQual.t :=
  att ← subscript attnames (attname_key v);
  newqual ←
    match ComposedQual.relname newqual with
    | Some rel =>
        if decide (rel ≠ relname att) then Raise ValueError else Ok newqual
    | None =>
        Ok (ComposedQual.set_relation newqual
              (relname att) (nspname att) (table_liverows att))
    end;
  op ← subscript operators (opno v);
  ComposedQual.append newqual (IsResolvedQual (make_resolved att op v)).

Fixpoint resolve_parts
    (operators : option (gmap string operator))
    (attnames : option (gmap string attribute))
    (newqual : ComposedQual.t) (values : list qualref)
  : result ComposedQual.t :=
  match values with
  | [] => Ok newqual
  | v :: values' =>
      newqual' ← resolve_part operators attnames newqual v;
      resolve_parts operators attnames newqual' values'
  end.

(** The body of [for row in quallist] (lines 180-210): the composed
    qual of one row, as it is when the row is done. *)
Definition resolve_row
    (operators : option (gmap string operator))
    (attnames : option (gmap string attribute))
    (r : row) : result ComposedQual.t :=
  let newqual :=
    ComposedQual.__init__ None None (nbfiltered r) (filter_ratio r)
      (count r) PNone (qualid r) in
  values ← comprehension (py_iter (quals r));
  resolve_parts operators attnames newqual values.

Fixpoint resolve_rows
    (operators : option (gmap string operator))
    (attnames : option (gmap string attribute))
    (new_qual_list : list ComposedQual.t) (quallist : list row)
  : result (list ComposedQual.t) :=
  match quallist with
  | [] => Ok new_qual_list
  | r :: quallist' =>
      newqual ← resolve_row operators attnames r;
      resolve_rows operators attnames (new_qual_list ++ [newqual]) quallist'
  end.

(** [quallist] is an iterable of rows.  A sequence (a list, a tuple)
    gives all its rows to every [for]; an iterator (a generator, the
    rows of a cursor) gives each row once, so the first [for] that
    goes through it leaves it without rows. *)
Inductive iterable : Type :=
| Sequence (rows : list row)
| Iterator (rows : list row).

(** [for row in quallist]: the rows the loop goes through, and
    [quallist] as the loop leaves it. *)
Definition for_each (quallist : iterable) : list row * iterable :=
  match quallist with
  | Sequence rows => (rows, Sequence rows)
  | Iterator rows => (rows, Iterator [])
  end.

(** [quallist] is gone through twice (lines 163 and 179);
    [attribute] is the name of the field [quals] of a row. *)
Definition resolve_quals (db : database) (quallist : iterable)
  : M connection (list ComposedQual.t) :=
  let '(rows, quallist) := for_each quallist in
  '(operators, attnames) ← lookup_catalogs db rows;
  let '(rows, _) := for_each quallist in
  lift (resolve_rows operators attnames [] rows).

End Quals.

(** ** qual_constants *)

Module Constants.

(** What [filter_clause.compile(dialect=dialect)] gives: the SQL of the
    condition ([str(filter_clause)]) and its named parameters. *)
Record compiled : Type := {
  compiled_str : string;
  params : list (string * pyval)
}.

(** A clause of the query-building library, as far as this module looks
    at it: the result of compiling it for the PostgreSQL dialect with
    named parameters, or the exception that raises. *)
Record clause_element : Type := {
  compile : result compiled
}.

(** [text(...)] with the values bound by [.params(...)]. *)
Record text_clause : Type := {
  text : string;
  bound : list (string * pyval)
}.

(** [select(columns).select_from(from_obj)] *)
Record select_from : Type := {
  columns : list string;
  from_obj : text_clause
}.

Definition orders : gmap string string :=
  <["most_executed" := "4 DESC"]>
    (<["least_filtering" := "6"]>
       (<["most_filtering" := "6 DESC"]> ∅)).

Definition criteria : list string :=
  ["most_executed"; "most_filtering"; "least_filtering"].

(** The text of the sub-query up to the argument of [unnest]. *)
Definition sample_unnest : string :=
"
    (
    WITH sample AS (
    SELECT query, s.queryid, qn.qualid, quals as quals,
                constants,
                sum(count) as count,
                sum(nbfiltered) as nbfiltered,
                CASE WHEN sum(count) = 0 THEN 0 ELSE sum(nbfiltered) / sum(count) END AS filter_ratio
        FROM powa_statements s
        JOIN pg_database ON pg_database.oid = s.dbid
        JOIN powa_qualstats_quals qn ON s.queryid = qn.queryid
        JOIN (
            SELECT *
            FROM powa_qualstats_constvalues_history qnc
            UNION ALL
            SELECT *
            FROM powa_qualstats_aggregate_constvalues_current
        ) qnc ON qn.qualid = qnc.qualid AND qn.queryid = qnc.queryid,
        LATERAL
                unnest(".

(** The text of the sub-query up to the condition of WHERE. *)
Definition sample_where : string :=
") as t(constants,nbfiltered,count)
        WHERE ".

(** The text of the sub-query up to the ORDER BY of the sample. *)
Definition sample_order : string :=
"
        GROUP BY qn.qualid, quals, constants, s.queryid, query
        ORDER BY ".

(** The text of the sub-query up to the alias of the sub-query. *)
Definition sample_limit : string :=
"
        LIMIT :top_value
    )
    SELECT query, queryid, qualid, quals, constants as constants, nbfiltered as nbfiltered,
                count as count,
                filter_ratio as filter_ratio,
                row_number() OVER (ORDER BY count desc NULLS LAST) as rownumber
        FROM sample
    ORDER BY 9
    LIMIT :top_value
    ) ".

(** The text of the sub-query after the alias. *)
Definition sample_alias : string :=
"
    ".

(** [d[k]] on a dict with string keys. *)
Definition getitem (d : gmap string string) (k : string) : result string :=
  match d !! k with
  | Some v => Ok v
  | None => Raise KeyError
  end.

(** [base.params(top_value=top, **filter_clause.params)], a call of
    the method [params(self, *optionaldict, **kwargs)]: a key
    [top_value] among the clause's parameters is a second value for
    the same keyword, and a key [self] a second value for the method's
    first argument; each is a TypeError. *)
Definition with_params (base : string) (top : pyval)
    (kwargs : list (string * pyval)) : result text_clause :=
  if decide ("top_value" ∈ kwargs.*1) then Raise TypeError
  else if decide ("self" ∈ kwargs.*1) then Raise TypeError
  else Ok {| text := base; bound := ("top_value", top) :: kwargs |}.

(** [qual_constants(type, filter_clause, top)]; a bare [return] gives
    [None]. *)
Definition qual_constants (type : string) (filter_clause : clause_element)
    (top : pyval) : result (option select_from) :=
  if decide (type ∉ criteria) then Ok None
  else
    filter_clause ← compile filter_clause;
    order ← getitem orders type;
    base ← with_params
      (sample_unnest +:+ type +:+ sample_where
         +:+ compiled_str filter_clause +:+ sample_order +:+ order
         +:+ sample_limit +:+ type +:+ sample_alias)
      top (params filter_clause);
    Ok (Some {| columns := ["*"]; from_obj := base |}).

End Constants.

(** ** Hypothetical indexes and plans *)

Module Hypo.

(** The double quote. *)
Definition dquote : string := String "034"%char EmptyString.

Definition quote_ident (name : string) : string := dquote +:+ name +:+ dquote.

Module HypoIndex.

Record t : Type := {
  nspname : string;
  relname : string;
  qual : option (list ResolvedQual.t);
  amname : string;
  name : option string
}.

(** [HypoIndex(nspname, relname, amname, composed_qual)] *)
Definition __init__ (nspname relname amname : string)
    (composed_qual : option (list ResolvedQual.t)) : t :=
  {| nspname := nspname; relname := relname; qual := composed_qual;
     amname := amname; name := None |}.

(** The property [ddl]: [None] unless the method is btree; going
    through a [qual] that is [None] is a TypeError. *)
Definition ddl (self : t) : result (option string) :=
  if decide ("btree" = amname self) then
    match qual self with
    | None => Raise TypeError
    | Some quals =>
        Ok (Some ("CREATE INDEX ON " +:+ quote_ident (nspname self)
                    +:+ "." +:+ quote_ident (relname self) +:+ "("
                    +:+ String.concat ","
                          ((fun q => quote_ident (ResolvedQual.attname q))
                             <$> quals)
                    +:+ ")"))
    end
  else Ok None.

End HypoIndex.

Module HypoPlan.

(** The costs are whatever the caller stores: numbers, or the texts
    that [get_hypoplans] finds in the plans. *)
Record t : Type := {
  baseplan : string;
  basecost : pyval;
  hypoplan : string;
  hypocost : pyval;
  query : string;
  indexes : list HypoIndex.t
}.

(** [HypoPlan(baseplan, basecost, hypoplan, hypocost, query, indexes)];
    [indexes or []] is the list given unless it is [None] or empty. *)
Definition __init__ (baseplan : string) (basecost : pyval)
    (hypoplan : string) (hypocost : pyval) (query : string)
    (indexes : option (list HypoIndex.t)) : t :=
  {| baseplan := baseplan; basecost := basecost; hypoplan := hypoplan;
     hypocost := hypocost; query := query;
     indexes := default [] indexes |}.

(** The property [gain_percent]:
    [round(100 - float(hypocost) * 100 / float(basecost), 2)], the
    operands evaluated from the left. *)
Definition gain_percent (self : t) : result float :=
  h ← py_float (hypocost self);
  b ← py_float (basecost self);
  q ← float_truediv (PrimFloat.mul h 100%float) b;
  Ok (py_round2 (PrimFloat.sub 100%float q)).

End HypoPlan.

(** [by_am] is a dict of lists in insertion order;
    [by_am[am].append(qual)] makes the list of [am] if it has none. *)
Fixpoint by_am_append (by_am : list (string * list ResolvedQual.t))
    (am : string) (qual : ResolvedQual.t)
  : list (string * list ResolvedQual.t) :=
  match by_am with
  | [] => [(am, [qual])]
  | (k, quals) :: by_am' =>
      if decide (k = am) then (k, quals ++ [qual]) :: by_am'
      else (k, quals) :: by_am_append by_am' am qual
  end.

Definition group_qual (by_am : list (string * list ResolvedQual.t))
    (qual : ResolvedQual.t) : list (string * list ResolvedQual.t) :=
  foldl (fun by_am am => by_am_append by_am am qual) by_am
    (ResolvedQual.indexam_names qual).

Definition group_by_am (composed_qual : ComposedQual.t)
  : list (string * list ResolvedQual.t) :=
  foldl group_qual [] (ComposedQual.__iter__ composed_qual).

(** The body of the second loop; [quals[0]] of an empty list is an
    IndexError. *)
Definition make_index (item : string * list ResolvedQual.t)
  : result HypoIndex.t :=
  let '(am, quals) := item in
  match quals with
  | [] => Raise IndexError
  | base :: _ =>
      Ok (HypoIndex.__init__ (ResolvedQual.nspname base)
            (ResolvedQual.relname base) am (Some quals))
  end.

Fixpoint make_indexes (indexes : list HypoIndex.t)
    (items : list (string * list ResolvedQual.t))
  : result (list HypoIndex.t) :=
  match items with
  | [] => Ok indexes
  | item :: items' =>
      index ← make_index item;
      make_indexes (indexes ++ [index]) items'
  end.

Definition possible_indexes (composed_qual : ComposedQual.t)
  : result (list HypoIndex.t) :=
  make_indexes [] (group_by_am composed_qual).

End Hypo.

(** ** get_plans *)

Module Plans.
Import Jumble.

(** The named tuple [Plan]. *)
Record Plan : Type := {
  title : string;
  values : list string;
  query : string;
  plan : string;
  filter_ratio : pyval;
  exec_count : pyval
}.

(** One sample of [qual]: the value stored under a ranking key, with
    the entries the function reads. *)
Module Vals.

Record t : Type := {
  constants : list string;
  filter_ratio : pyval;
  count : pyval
}.

End Vals.

(** [self]: what [self.execute(statement, database=database)] does,
    the first column of the rows it gives or the exception raised
    while they are fetched. *)
Record handler : Type := {
  execute : string -> string -> result (list string)
}.

(** The statements handed to [self.execute], oldest first, each with
    the database it was sent to. *)
Definition executed : Type := list (string * string).

Definition self_execute (self : handler) (statement database : string)
  : M executed (list string) :=
  fun log => (execute self statement database, log ++ [(statement, database)]).

(** [try: m except: h], every exception caught. *)
Definition try_except_any {S A} (m : M S A) (h : M S A) : M S A :=
  fun s =>
    match m s with
    | (Raise _, s') => h s'
    | r => r
    end.

Definition newline : string := String "010"%char EmptyString.

(** Lines 277-283: [plan] is "N/A" unless the statement runs. *)
Definition explain (self : handler) (query database : string)
  : M executed string :=
  try_except_any
    (result ← self_execute self ("EXPLAIN " +:+ query) database;
     mret (String.concat newline result))
    (mret "N/A").

Definition getitem (qual : gmap string Vals.t) (key : string)
  : result Vals.t :=
  match qual !! key with
  | Some vals => Ok vals
  | None => Raise KeyError
  end.

Definition keys : list string :=
  ["most filtering"; "least filtering"; "most executed"].

(** The loop over the keys; [query] is assigned in the loop, so each
    turn starts from the text the turn before left. *)
Fixpoint get_plans_loop (self : handler) (database : string)
    (qual : gmap string Vals.t) (keys : list string)
    (query : string) (plans : list Plan) : M executed (list Plan) :=
  match keys with
  | [] => mret plans
  | key :: keys' =>
      vals ← lift (getitem qual key);
      query ← lift (format_jumbled_query query (Vals.constants vals));
      plan ← explain self query database;
      get_plans_loop self database qual keys' query
        (plans ++ [{| title := key; values := Vals.constants vals;
                      query := query; plan := plan;
                      filter_ratio := Vals.filter_ratio vals;
                      exec_count := Vals.count vals |}])
  end.

Definition get_plans (self : handler) (query database : string)
    (qual : gmap string Vals.t) : M executed (list Plan) :=
  get_plans_loop self database qual keys query [].

End Plans.

(** ** HypoIndex.hypo_ddl *)

Module Proposer.
Import Hypo.



End Proposer.

(** ** get_hypoplans *)

Module Evaluator.
Import Hypo.

(** The plan texts searched are ASCII text: there [\d] is one of the
    ten ASCII digits.  (On other text Python's [\d] also matches the
    decimal digits of other scripts; what is proved of the search
    assumes [ascii_text].) *)
Definition is_digit (c : ascii) : bool :=
  let n := nat_of_ascii c in (48 <=? n)%nat && (n <=? 57)%nat.

Definition is_dot (c : ascii) : bool := Ascii.eqb c "."%char.

(** [\d*] at the start of [s], greedy: the digits and what follows. *)
Fixpoint span_digits (s : string) : string * string :=
  match s with
  | EmptyString => (EmptyString, EmptyString)
  | String c s' =>
      if is_digit c
      then let '(d, rest) := span_digits s' in (String c d, rest)
      else (EmptyString, s)
  end.

(** [\d+\.\d+] at the start of [s]: giving back digits of the first
    run cannot make the dot match, so the runs are the longest ones. *)
Definition match_cost (s : string) : option string :=
  let '(d1, rest) := span_digits s in
  match d1, rest with
  | String _ _, String c rest' =>
      if is_dot c then
        match span_digits rest' with
        | (String c2 d2, _) => Some (d1 +:+ "." +:+ String c2 d2)
        | (EmptyString, _) => None
        end
      else None
  | _, _ => None
  end.

(** [re.search("(?<=\.\.)\d+\.\d+", s)], as the text matched
    ([m.group(0)]) or [None]: the positions are tried from the left,
    [dots] counts the dots that end just before the position, up to
    two. *)
Fixpoint search_cost_from (dots : nat) (s : string) : option string :=
  match s with
  | EmptyString => None
  | String c s' =>
      match (if (2 <=? dots)%nat then match_cost s else None) with
      | Some m => Some m
      | None =>
          search_cost_from (if is_dot c then Nat.min 2 (S dots) else 0%nat) s'
      end
  end.

Definition search_cost (s : string) : option string := search_cost_from 0 s.

(** [needle in hay] for strings. *)
Fixpoint contains (needle hay : string) : bool :=
  String.prefix needle hay
  || match hay with
     | EmptyString => false
     | String _ hay' => contains needle hay'
     end.

(** The connection: the first column of the rows answered to a
    statement, given the statements the transaction has run before
    it, or the exception raised. *)
Record connection : Type := {
  answer : list string -> string -> result (list string)
}.

Definition trans_execute (conn : connection) (statement : string)
  : M (list string) (list string) :=
  fun log => (answer conn log statement, log ++ [statement]).

Definition newline : string := String "010"%char EmptyString.

(** The body of [with conn.begin() as trans] (lines 398-401). *)
Definition explain_both (conn : connection) (query : string)
  : M (list string) (string * string) :=
  _ ← trans_execute conn "SET hypopg.enabled = off";
  rows ← trans_execute conn ("EXPLAIN " +:+ query);
  let baseplan := String.concat newline rows in
  _ ← trans_execute conn "SET hypopg.enabled = on";
  rows ← trans_execute conn ("EXPLAIN " +:+ query);
  let hypoplan := String.concat newline rows in
  mret (baseplan, hypoplan).

(** The loop of lines 408-412. *)
Fixpoint used_indexes (indexes : list HypoIndex.t) (hypoplan : string)
  : list HypoIndex.t :=
  match indexes with
  | [] => []
  | ind :: indexes' =>
      match HypoIndex.name ind with
      | None => used_indexes indexes' hypoplan
      | Some name =>
          if contains name hypoplan
          then ind :: used_indexes indexes' hypoplan
          else used_indexes indexes' hypoplan
      end
  end.

(** What ends the function: a HypoPlan, whose two costs are the texts
    matched in the plans, an exception of the
    connection, or the AttributeError of [m.group(0)] for [m] that is
    [None]. *)
Inductive raised : Type :=
| Propagated (e : exn)
| AttributeError.

Inductive outcome : Type :=
| Returned (p : HypoPlan.t)
| Raised (r : raised).

Definition get_hypoplans (conn : connection) (query : string)
    (indexes : list HypoIndex.t) (log : list string)
  : outcome * list string :=
  match explain_both conn query log with
  | (Raise e, log') => (Raised (Propagated e), log')
  | (Ok (baseplan, hypoplan), log') =>
      (match search_cost baseplan with
       | None => Raised AttributeError
       | Some basecost =>
           match search_cost hypoplan with
           | None => Raised AttributeError
           | Some hypocost =>
               Returned
                 (HypoPlan.__init__ baseplan (PStr basecost)
                    hypoplan (PStr hypocost) query
                    (Some (used_indexes indexes hypoplan)))
           end
       end, log')
  end.

End Evaluator.

(** ** The words of the statements

    What the statements below say about the functions above, written
    once: these definitions follow the specification's wording, not the
    source. *)

Module JumbleSpec.

(** The number of placeholders of a query, and the query with its
    placeholders replaced from the left as long as constants are left. *)
Fixpoint placeholders (s : string) : nat :=
  match s with
  | EmptyString => 0
  | String c s' =>
      if Ascii.eqb c "?"%char then S (placeholders s') else placeholders s'
  end.

Fixpoint substitute_while_available (s : string) (params : list string)
  : string :=
  match s with
  | EmptyString => EmptyString
  | String c s' =>
      if Ascii.eqb c "?"%char
      then match params with
           | [] => String c (substitute_while_available s' [])
           | v :: params' => v +:+ substitute_while_available s' params'
           end
      else String c (substitute_while_available s' params)
  end.

End JumbleSpec.

Module QualsSpec.
Import Quals.

(** [q] is the part made for the reference [v] from its entries in the
    two mappings. *)
Definition resolved_from
    (operators : option (gmap string operator))
    (attnames : option (gmap string attribute))
    (q : ResolvedQual.t) (v : qualref) : Prop :=
  exists att op,
    subscript attnames (attname_key v) = Ok att
    /\ subscript operators (opno v) = Ok op
    /\ q = make_resolved att op v.

(** [cq] has the counts of [newqual] and its parts, then [parts]. *)
Definition extends (newqual cq : ComposedQual.t)
    (parts : list ResolvedQual.t) : Prop :=
  ComposedQual.count cq = ComposedQual.count newqual
  /\ ComposedQual.nbfiltered cq = ComposedQual.nbfiltered newqual
  /\ ComposedQual.filter_ratio cq = ComposedQual.filter_ratio newqual
  /\ ComposedQual.qualid cq = ComposedQual.qualid newqual
  /\ ComposedQual._quals cq = ComposedQual._quals newqual ++ parts.

(** What the second pass makes of one row: the row's counts, and one
    part for each of its references on a relation other than "0", in
    their order. *)
Definition built_from
    (operators : option (gmap string operator))
    (attnames : option (gmap string attribute))
    (r : row) (cq : ComposedQual.t) : Prop :=
  ComposedQual.count cq = count r
  /\ ComposedQual.nbfiltered cq = nbfiltered r
  /\ ComposedQual.filter_ratio cq = filter_ratio r
  /\ ComposedQual.qualid cq = qualid r
  /\ exists l, quals r = QList l
     /\ Forall2 (resolved_from operators attnames)
          (ComposedQual._quals cq) (filter (fun v => relid v <> "0") l).

(** The rows of an iterable, and the rows it still gives once a loop
    has gone through it. *)
Definition rows_of (quallist : iterable) : list row :=
  match quallist with
  | Sequence rows => rows
  | Iterator rows => rows
  end.

Definition rows_again (quallist : iterable) : list row :=
  match quallist with
  | Sequence rows => rows
  | Iterator _ => []
  end.

(** Every reference of every row, the single ones included. *)
Definition all_refs (quallist : list row) : list qualref :=
  quallist ≫= (fun r => as_list (quals r)).

Definition operator_ids (quallist : list row) : gset string :=
  list_to_set (opno <$> all_refs quallist).

Definition attribute_ids (quallist : list row) : gset (string * Z) :=
  list_to_set ((fun v => (relid v, attnum v)) <$> all_refs quallist).

(** The statements a run adds to the log. *)
Definition issued (quallist : list row) : list statement :=
  (if decide (operator_ids quallist = ∅) then []
   else [RESOLVE_OPNAME (operator_ids quallist)])
  ++ (if decide (attribute_ids quallist = ∅) then []
      else [RESOLVE_ATTNAME (attribute_ids quallist)]).

End QualsSpec.

Module HypoSpec.
Import Hypo.

Abbreviation part := ResolvedQual.t.
Abbreviation names := ResolvedQual.indexam_names.

(** The appends of the first loop, in the order they are made. *)
Definition appends (parts : list part) : list (string * part) :=
  parts ≫= (fun q => (fun am => (am, q)) <$> names q).

Definition by_am_step (by_am : list (string * list part))
    (e : string * part) : list (string * list part) :=
  by_am_append by_am e.1 e.2.

(** [by_am.get(am)] *)
Fixpoint by_am_get (am : string) (by_am : list (string * list part))
  : option (list part) :=
  match by_am with
  | [] => None
  | (k, quals) :: by_am' =>
      if decide (k = am) then Some quals else by_am_get am by_am'
  end.

(** The parts appended under [am]. *)
Definition appended (am : string) (es : list (string * part))
  : list part :=
  snd <$> filter (fun e => e.1 = am) es.

(** The index made for a group. *)
Definition index_for (item : string * list part) (index : HypoIndex.t)
  : Prop :=
  exists base rest,
    item.2 = base :: rest
    /\ index = HypoIndex.__init__ (ResolvedQual.nspname base)
                 (ResolvedQual.relname base) item.1 (Some item.2).

(** An expected text written with apostrophes for its double quotes. *)
Fixpoint with_dquotes (s : string) : string :=
  match s with
  | EmptyString => EmptyString
  | String c s' =>
      String (if Ascii.eqb c "'"%char then "034"%char else c)
        (with_dquotes s')
  end.

End HypoSpec.

(** ** Inputs the statements are tried on *)

Module Examples.
Import Quals Constants Hypo HypoSpec.

Definition two_placeholders : string :=
  "SELECT * FROM t WHERE a = ? AND b = ?".

(** A part on relation [rel], and a composed qual whose relation is
    already set to [rel]. *)
Definition part_on (rel : string) : ResolvedQual.t :=
  {| ResolvedQual.nspname := "public";
     ResolvedQual.relname := rel;
     ResolvedQual.attname := "id";
     ResolvedQual.opname := "=";
     ResolvedQual.indexam_names := ["btree"];
     ResolvedQual.n_distinct := None;
     ResolvedQual.most_common_values := PNone;
     ResolvedQual.null_frac := PNone;
     ResolvedQual.example_values := [];
     ResolvedQual.eval_type := PStr "f" |}.

Definition composed_on (rel : string) : ComposedQual.t :=
  ComposedQual.__init__ (Some "public") (Some rel)
    PNone PNone PNone PNone PNone.

Definition example_ref : qualref :=
  {| opno := "96"; relid := "16384"; attnum := 1%Z; eval_type := PStr "f" |}.

Definition example_operator : operator :=
  {| name := "="; indexams := ["403"]; indexam_names := ["btree"] |}.

Definition example_attribute (rel : string) : attribute :=
  {| relname := rel; attname := "id"; nspname := "public";
     n_distinct := Some (PyInt (-1)); null_frac := PNum (PyInt 0);
     most_common_values := PNone; table_liverows := PNum (PyInt 1000) |}.

Definition example_operators : option (gmap string operator) :=
  Some {["96" := example_operator]}.

Definition example_attnames (rel : string)
  : option (gmap string attribute) :=
  Some {["16384.1" := example_attribute rel]}.

Definition example_db : database :=
  {| scalar_opname := fun _ => example_operators;
     scalar_attname := fun _ => example_attnames "t1" |}.

Definition example_row (values : qualsval) : row :=
  {| quals := values; count := PNum (PyInt 10);
     nbfiltered := PNum (PyInt 4); filter_ratio := PNum (PyFloat 0.5);
     qualid := PNum (PyInt 7) |}.


Definition plan_with_costs (basecost hypocost : pyval) : HypoPlan.t :=
  {| HypoPlan.baseplan := "Seq Scan on t  (cost=0.00..100.00 rows=1 width=4)";
     HypoPlan.basecost := basecost;
     HypoPlan.hypoplan := "Index Scan on t  (cost=0.00..80.00 rows=1 width=4)";
     HypoPlan.hypocost := hypocost;
     HypoPlan.query := "SELECT * FROM t WHERE a = 1";
     HypoPlan.indexes := [] |}.

Definition int_costs (basecost hypocost : Z) : HypoPlan.t :=
  plan_with_costs (PNum (PyInt basecost)) (PNum (PyInt hypocost)).

Definition example_part_named (column : string) : ResolvedQual.t :=
  {| ResolvedQual.nspname := "s";
     ResolvedQual.relname := "t";
     ResolvedQual.attname := column;
     ResolvedQual.opname := "=";
     ResolvedQual.indexam_names := ["btree"];
     ResolvedQual.n_distinct := None;
     ResolvedQual.most_common_values := PNone;
     ResolvedQual.null_frac := PNone;
     ResolvedQual.example_values := [];
     ResolvedQual.eval_type := PStr "f" |}.

Definition index_on (nsp rel am : string) (columns : list string)
  : HypoIndex.t :=
  HypoIndex.__init__ nsp rel am (Some (example_part_named <$> columns)).

Definition part_supporting (column : string) (ams : list string) : part :=
  {| ResolvedQual.nspname := "s";
     ResolvedQual.relname := "t";
     ResolvedQual.attname := column;
     ResolvedQual.opname := "=";
     ResolvedQual.indexam_names := ams;
     ResolvedQual.n_distinct := None;
     ResolvedQual.most_common_values := PNone;
     ResolvedQual.null_frac := PNone;
     ResolvedQual.example_values := [];
     ResolvedQual.eval_type := PStr "f" |}.

Definition composed_of (parts : list part) : ComposedQual.t :=
  ComposedQual.set__quals
    (ComposedQual.__init__ (Some "s") (Some "t")
       PNone PNone PNone PNone PNone)
    parts.

(** Floats with the text Python 3 prints for them. *)
Definition printed_floats : list (float * string) :=
  [((0x1.0000000000018p+46)%float, "70368744177664.38");
   ((0x1.0000000000008p+46)%float, "70368744177664.12");
   ((0x1.0000180000000p+6)%float, "64.00009155273438");
   ((0x1.999999999999ap-4)%float, "0.1");
   ((0x1.0f0cf064dd592p+73)%float, "1e+22");
   ((0x1.52d02c7e14af6p+76)%float, "1e+23");
   ((0x1.a36e2eb1c432dp-14)%float, "0.0001");
   ((0x1.a36e2eb1c432dp-15)%float, "5e-05");
   ((0x0.0000000000001p-1022)%float, "5e-324");
   ((0x1.fffffffffffffp+1023)%float, "1.7976931348623157e+308");
   ((0x1.0000000000000p-1022)%float, "2.2250738585072014e-308");
   ((0x1.3333333333333p-2)%float, "0.3");
   ((0x1.5666666666666p+1)%float, "2.675");
   ((0x1.0aae147ae147bp+6)%float, "66.67");
   ((0x1.35147ae147ae1p+6)%float, "77.27");
   ((-0x1.0000000000000p-1)%float, "-0.5");
   ((0x1.0000000000000p+0)%float, "1.0");
   ((0x1.9000000000000p+6)%float, "100.0");
   ((0x1.d6f3454800000p+26)%float, "123456789.125");
   ((0x1.0000000000000p+53)%float, "9007199254740992.0");
   ((0x1.5555555555555p-2)%float, "0.3333333333333333");
   ((0x1.5555555555555p-1)%float, "0.6666666666666666");
   ((0x1.1c37937e08000p+53)%float, "1e+16");
   ((0x1.4f8b588e368f1p-17)%float, "1e-05");
   ((0x1.d6f3454000000p+26)%float, "123456789.0");
   ((0x1.4d8399f767c45p+23)%float, "10928588.983213553");
   ((0x1.8fbbcbde5c099p+445)%float, "1.4186613525849614e+134");
   ((-0x1.11fdecb91ce37p-243)%float, "-7.571968556055867e-74");
   ((-0x1.d4330f1446beap+375)%float, "-1.4074705188261364e+113");
   ((-0x1.b8c9ebd69fe29p-401)%float, "-3.3339745473042614e-121");
   ((-0x1.0b125ec1d7da0p-900)%float, "-1.2342180766211395e-271");
   ((-0x1.10dff076ce2efp+371)%float, "-5.126864004244935e+111");
   ((-0x1.5387777330bdbp+107)%float, "-2.1520217579844227e+32");
   ((0x1.1ea36f17fd374p-3)%float, "0.1399601630397701");
   ((0x1.64138a6233255p-811)%float, "1.01853664031722e-244");
   ((0x1.7688de6a16a3bp-381)%float, "2.9704598186234577e-115");
   ((0x1.dd97f1cfb10f6p+499)%float, "3.0534183338726823e+150");
   ((-0x1.271007814e8a2p+486)%float, "-2.3027782228163463e+146");
   ((0x1.959ce3f1f65a8p+536)%float, "3.56409621163656e+161");
   ((0x1.afe878b33e968p-606)%float, "6.352929017207453e-183")].

Definition raising_clause : clause_element :=
  {| compile := Raise CompileError |}.

Definition database_clause : clause_element :=
  {| compile :=
       Ok {| compiled_str := "datname = :database";
             params := [("database", PStr "bench")] |} |}.

End Examples.

(** ** Notions and inputs of the further properties *)

Module PlansSpec.
Import Jumble JumbleSpec Plans.

(** What [format_jumbled_query] returns: every placeholder replaced
    when the constants suffice, the query itself when they do not. *)
Definition substituted (sql : string) (params : list string) : string :=
  if decide (placeholders sql <= length params)%nat
  then substitute_while_available sql params
  else sql.

(** The plan text recorded for a query. *)
Definition plan_text (self : handler) (query database : string) : string :=
  match execute self ("EXPLAIN " +:+ query) database with
  | Ok rows => String.concat newline rows
  | Raise _ => "N/A"
  end.

Definition plan_of (self : handler) (database key : string) (vals : Vals.t)
    (query : string) : Plan :=
  {| title := key; values := Vals.constants vals; query := query;
     plan := plan_text self query database;
     filter_ratio := Vals.filter_ratio vals;
     exec_count := Vals.count vals |}.

(** A handler whose database is down, one that answers two lines. *)
Definition failing_handler : handler :=
  {| execute := fun _ _ => Raise ValueError |}.

Definition answering_handler : handler :=
  {| execute := fun _ _ =>
       Ok ["Seq Scan on t  (cost=0.00..35.50 rows=10 width=4)";
           "  Filter: (a = 1)"] |}.

Definition vals_of (constants : list string) : Vals.t :=
  {| Vals.constants := constants;
     Vals.filter_ratio := PNum (PyFloat 0.5);
     Vals.count := PNum (PyInt 10) |}.

Definition three_samples (c1 c2 c3 : list string) : gmap string Vals.t :=
  <["most filtering" := vals_of c1]>
    (<["least filtering" := vals_of c2]>
       (<["most executed" := vals_of c3]> ∅)).

End PlansSpec.

Module QualsMore.
Import Quals QualsSpec.

(** The composed qual a row starts with: its counts, no relation, no
    part. *)
Definition bare (r : row) : ComposedQual.t :=
  ComposedQual.__init__ None None (nbfiltered r) (filter_ratio r)
    (count r) PNone (qualid r).

(** The references of a list that the second pass keeps. *)
Definition kept (l : list qualref) : list qualref :=
  filter (fun v => relid v <> "0") l.

(** A composed qual without parts has no relation; one with parts has
    the relation and namespace of its first part, and every part is on
    a relation of that name. *)
Definition on_one_relation (cq : ComposedQual.t) : Prop :=
  match ComposedQual._quals cq with
  | [] => ComposedQual.relname cq = None /\ ComposedQual.nspname cq = None
  | q :: rest =>
      ComposedQual.relname cq = Some (ResolvedQual.relname q)
      /\ ComposedQual.nspname cq = Some (ResolvedQual.nspname q)
      /\ Forall (fun p => ResolvedQual.relname p = ResolvedQual.relname q)
           rest
  end.

(** A row whose references are all on the relation "0". *)
Definition sentinel_only (r : row) : Prop :=
  exists l, quals r = QList l /\ Forall (fun v => relid v = "0") l.

(** Two references on the relation "0" and one on a table. *)
Definition sentinel_ref (op : string) : qualref :=
  {| opno := op; relid := "0"; attnum := 0; eval_type := PStr "f" |}.

Definition table_ref (op : string) (att : Z) : qualref :=
  {| opno := op; relid := "16384"; attnum := att; eval_type := PStr "i" |}.

Definition row_with (values : qualsval) : row :=
  {| quals := values; count := PNum (PyInt 3);
     nbfiltered := PNum (PyInt 1); filter_ratio := PNum (PyFloat 0.25);
     qualid := PNum (PyInt 11) |}.

(** A database that knows the operator 96 and the first column of
    the table 16384, and one that finds nothing. *)
Definition known_db : database :=
  {| scalar_opname := fun _ =>
       Some {["96" := {| name := "="; indexams := ["403"];
                         indexam_names := ["btree"] |}]};
     scalar_attname := fun _ =>
       Some {["16384.1" := {| relname := "t"; attname := "a";
                              nspname := "public";
                              n_distinct := Some (PyFloat (-0.5));
                              null_frac := PNum (PyInt 0);
                              most_common_values := PNone;
                              table_liverows := PNum (PyInt 1000) |}]} |}.

Definition null_db : database :=
  {| scalar_opname := fun _ => None; scalar_attname := fun _ => None |}.

(** A part on column [att] of public.t under operator [op], and a
    composed qual holding given parts. *)
Definition part_on (att op : string) : ResolvedQual.t :=
  Quals.make_resolved
    {| Quals.relname := "t"; Quals.attname := att;
       Quals.nspname := "public"; Quals.n_distinct := None;
       Quals.null_frac := PNone; Quals.most_common_values := PNone;
       Quals.table_liverows := PNone |}
    {| Quals.name := op; Quals.indexams := [];
       Quals.indexam_names := [] |}
    (table_ref "96" 1).

Definition holding (parts : list ResolvedQual.t) : ComposedQual.t :=
  ComposedQual.set__quals
    (ComposedQual.__init__ None None PNone PNone PNone PNone PNone) parts.

(** ["WHERE " + " AND ".join(...)] one part longer. *)
Definition where_clause_with (cq : ComposedQual.t) (q : ResolvedQual.t)
  : string :=
  match ComposedQual._quals cq with
  | [] => "WHERE " +:+ ResolvedQual.__str__ q
  | _ :: _ =>
      ComposedQual.where_clause cq +:+ " AND " +:+ ResolvedQual.__str__ q
  end.

End QualsMore.

Module ProposerSpec.
Import Hypo HypoSpec Proposer.


(** The values of a list in the order they are first met. *)
Definition first_seen (l : list string) : list string :=
  foldl (fun seen a => if decide (a ∈ seen) then seen else seen ++ [a]) [] l.

End ProposerSpec.

Module ConstantsMore.
Import Constants.

(** A clause one of whose parameters is named like the keyword. *)
Definition clashing_clause : clause_element :=
  {| compile :=
       Ok {| compiled_str := "rownumber <= :top_value";
             params := [("top_value", PNum (PyInt 5))] |} |}.

(** A clause with a parameter named like the method's first
    argument. *)
Definition self_clause : clause_element :=
  {| compile :=
       Ok {| compiled_str := "owner = :self";
             params := [("self", PStr "bench")] |} |}.

End ConstantsMore.

Module EvaluatorSpec.
Import Hypo Evaluator.

(** A run of one or more digits. *)
Fixpoint all_digits (s : string) : bool :=
  match s with
  | EmptyString => true
  | String c s' => is_digit c && all_digits s'
  end.

Definition digits (s : string) : Prop :=
  all_digits s = true /\ s <> EmptyString.

(** [s] does not go on with a digit. *)
Definition no_digit_ahead (s : string) : Prop :=
  match s with
  | EmptyString => True
  | String c _ => is_digit c = false
  end.

(** The plan text holds a cost: two dots, digits, a dot, digits. *)
Definition has_cost (plan : string) : Prop :=
  exists pre d1 d2 post,
    plan = pre +:+ ".." +:+ d1 +:+ "." +:+ d2 +:+ post
    /\ digits d1 /\ digits d2.

(** The dots that end a text, up to two, after [k] dots before it. *)
Fixpoint dots_after (k : nat) (s : string) : nat :=
  match s with
  | EmptyString => k
  | String c s' => dots_after (if is_dot c then Nat.min 2 (S k) else 0%nat) s'
  end.

(** [needle] occurs in [hay]. *)
Definition occurs_in (needle hay : string) : Prop :=
  exists pre post, hay = pre +:+ needle +:+ post.

(** The four statements of an evaluation, in the order they are
    sent. *)
Definition protocol (query : string) : list string :=
  ["SET hypopg.enabled = off"; "EXPLAIN " +:+ query;
   "SET hypopg.enabled = on"; "EXPLAIN " +:+ query].

(** A connection whose planner answers one line, cheaper once the
    hypothetical indexes are switched on, and names the index used. *)
Definition example_connection : connection :=
  {| answer := fun log statement =>
       if decide ("SET hypopg.enabled = on" ∈ log)
       then Ok ["Index Scan using <41>btree_t_a on t  (cost=0.05..8.07 rows=1 width=4)"]
       else Ok ["Seq Scan on t  (cost=0.00..35.50 rows=10 width=4)"] |}.

(** A connection that answers plans without any cost. *)
Definition costless_connection : connection :=
  {| answer := fun _ _ => Ok ["Result"] |}.

(** The characters of a cost: digits and the dot. *)
Definition cost_char (c : ascii) : Prop :=
  is_decimal c = true \/ c = "."%char.

(** A connection whose plans cost nothing. *)
Definition free_connection : connection :=
  {| answer := fun _ _ =>
       Ok ["Result  (cost=0.00..0.00 rows=0 width=0)";
           "  One-Time Filter: false"] |}.

(** A connection that refuses every statement. *)
Definition refusing_connection : connection :=
  {| answer := fun _ _ => Raise ValueError |}.

Definition named_index (am : string) (name : option string) : HypoIndex.t :=
  {| HypoIndex.nspname := "public"; HypoIndex.relname := "t";
     HypoIndex.qual := None; HypoIndex.amname := am;
     HypoIndex.name := name |}.

End EvaluatorSpec.

(* ================================================================== *)
(** * Properties *)

(** ** format_jumbled_query *)

Section JumbleFacts.
Import Jumble JumbleSpec Examples.

Local Open Scope nat_scope.

(** With a constant for every placeholder, [re.sub] returns the query
    with the placeholders replaced from the left, and the iterator has
    moved past the constants used. *)
Lemma re_sub_qmark_enough (sql : string) (it : iterator) :
  placeholders sql <= length it ->
  re_sub_qmark next sql it
  = (Ok (substitute_while_available sql it), drop (placeholders sql) it).
Proof.
  revert it. induction sql as [|c sql IH]; intros it Hlen; simpl in *.
  - reflexivity.
  - unfold mbind, M_bind.
    destruct (Ascii.eqb c "?") eqn:Hc.
    + destruct it as [|v it]; simpl in Hlen; [lia|].
      simpl. rewrite IH by lia. reflexivity.
    + rewrite IH by lia. reflexivity.
Qed.

(** With fewer constants than placeholders, the callback's
    StopIteration ends [re.sub]: nothing is returned. *)
Lemma re_sub_qmark_short (sql : string) (it : iterator) :
  length it < placeholders sql ->
  fst (re_sub_qmark next sql it) = Raise StopIteration.
Proof.
  revert it. induction sql as [|c sql IH]; intros it Hlen; simpl in *.
  - lia.
  - unfold mbind, M_bind.
    destruct (Ascii.eqb c "?") eqn:Hc.
    + destruct it as [|v it]; simpl; [reflexivity|].
      simpl in Hlen. specialize (IH it ltac:(lia)).
      destruct (re_sub_qmark next sql it) as [[r|e] it']; simpl in *;
        congruence.
    + specialize (IH it Hlen).
      destruct (re_sub_qmark next sql it) as [[r|e] it']; simpl in *;
        congruence.
Qed.

Lemma format_jumbled_query_enough (sql : string) (params : list string) :
  placeholders sql <= length params ->
  format_jumbled_query sql params
  = Ok (substitute_while_available sql params).
Proof.
  intros H. unfold format_jumbled_query, format_jumbled_query_body,
    try_except, iter.
  rewrite re_sub_qmark_enough by exact H. reflexivity.
Qed.

Lemma format_jumbled_query_short (sql : string) (params : list string) :
  length params < placeholders sql ->
  format_jumbled_query sql params = Ok sql.
Proof.
  intros H. unfold format_jumbled_query, format_jumbled_query_body,
    try_except, iter.
  pose proof (re_sub_qmark_short sql params H) as Hs.
  destruct (re_sub_qmark next sql params) as [[r|e] it']; simpl in *.
  - discriminate.
  - injection Hs as ->. reflexivity.
Qed.

(** C1, as stated, fails: with one constant for two placeholders the
    result is not the query with its first placeholder replaced; the
    query comes back as it was given. *)
Lemma format_jumbled_query_one_constant_unchanged :
  substitute_while_available two_placeholders ["1"]
    = "SELECT * FROM t WHERE a = 1 AND b = ?"
  /\ format_jumbled_query two_placeholders ["1"]
     <> Ok (substitute_while_available two_placeholders ["1"])
  /\ format_jumbled_query two_placeholders ["1"] = Ok two_placeholders.
Proof. split; [reflexivity | split; [discriminate | reflexivity]]. Qed.

(** C1, amended: substitution is positional, two constants fill the two
    placeholders of the example, constants beyond the placeholders are
    ignored, and with fewer constants than placeholders the query is
    returned unchanged, no placeholder replaced. *)
Theorem format_jumbled_query_positional_or_unchanged :
  format_jumbled_query two_placeholders ["1"; "2"]
    = Ok "SELECT * FROM t WHERE a = 1 AND b = 2"
  /\ (forall sql params,
        placeholders sql <= length params ->
        format_jumbled_query sql params
        = Ok (substitute_while_available sql params))
  /\ (forall sql params,
        length params < placeholders sql ->
        format_jumbled_query sql params = Ok sql).
Proof.
  split; [reflexivity|].
  split; [apply format_jumbled_query_enough
         | apply format_jumbled_query_short].
Qed.

Lemma format_jumbled_query_positional_or_unchanged_witness :
  format_jumbled_query "a = ? AND b = ?" ["1"; "2"; "3"]
    = Ok "a = 1 AND b = 2"
  /\ format_jumbled_query "a = ? AND b = ? AND c = ?" ["1"; "2"]
     = Ok "a = ? AND b = ? AND c = ?".
Proof.
  split.
  - apply (proj1 (proj2 format_jumbled_query_positional_or_unchanged)
             "a = ? AND b = ?" ["1"; "2"; "3"]).
    simpl. lia.
  - apply (proj2 (proj2 format_jumbled_query_positional_or_unchanged)
             "a = ? AND b = ? AND c = ?" ["1"; "2"]).
    simpl. lia.
Defined.

End JumbleFacts.

(** ** ComposedQual.append and the relation check of resolve_quals *)

Section QualFacts.
Import Quals QualsSpec Examples.

Local Open Scope nat_scope.

Lemma append_resolved (self : ComposedQual.t) (q : ResolvedQual.t) :
  ComposedQual.append self (IsResolvedQual q)
  = Ok (ComposedQual.set__quals self (ComposedQual._quals self ++ [q])).
Proof. reflexivity. Qed.

(** C2, as stated, fails: [append] on a composed qual whose relation is
    "t1" accepts a ResolvedQual on "t2"; no validation failure, the
    sequence of parts grows. *)
Lemma append_accepts_other_relation :
  ComposedQual.relname (composed_on "t1") = Some "t1"
  /\ ResolvedQual.relname (part_on "t2") <> "t1"
  /\ ComposedQual.append (composed_on "t1") (IsResolvedQual (part_on "t2"))
     <> Raise ValueError
  /\ ComposedQual.append (composed_on "t1") (IsResolvedQual (part_on "t2"))
     = Ok (ComposedQual.set__quals (composed_on "t1") [part_on "t2"]).
Proof. repeat split; discriminate. Qed.

(** C2, amended: the relation is checked by resolve_quals before it
    appends.  For a composed qual whose relation is set, a reference
    whose resolved relation differs raises ValueError; one whose
    resolved relation is the same, with its operator resolved, is
    appended as the last part, so the sequence grows by one.
    [append] itself takes every ResolvedQual. *)
Theorem resolve_part_checks_relation
    (operators : option (gmap string operator))
    (attnames : option (gmap string attribute))
    (newqual : ComposedQual.t) (v : qualref)
    (rel : string) (att : attribute) :
  ComposedQual.relname newqual = Some rel ->
  subscript attnames (attname_key v) = Ok att ->
  (relname att <> rel ->
     resolve_part operators attnames newqual v = Raise ValueError)
  /\ (relname att = rel ->
      forall op, subscript operators (opno v) = Ok op ->
        ResolvedQual.relname (make_resolved att op v) = rel
        /\ resolve_part operators attnames newqual v
           = Ok (ComposedQual.set__quals newqual
                   (ComposedQual._quals newqual ++ [make_resolved att op v]))
        /\ length (ComposedQual._quals newqual ++ [make_resolved att op v])
           = S (length (ComposedQual._quals newqual)))
  /\ (forall q, ComposedQual.append newqual (IsResolvedQual q)
        = Ok (ComposedQual.set__quals newqual
                (ComposedQual._quals newqual ++ [q]))).
Proof.
  intros Hrel Hatt. split; [|split].
  - intros Hne. unfold resolve_part. rewrite Hatt. simpl. rewrite Hrel.
    destruct (decide (rel <> relname att)) as [_|Heq]; [reflexivity|].
    exfalso. apply Heq. congruence.
  - intros Heq op Hop. split; [exact Heq|]. split.
    + unfold resolve_part. rewrite Hatt. simpl. rewrite Hrel.
      destruct (decide (rel <> relname att)) as [Hne|_]; [congruence|].
      simpl. rewrite Hop. reflexivity.
    + rewrite length_app. simpl. lia.
  - intros q. reflexivity.
Qed.

Lemma resolve_part_checks_relation_witness :
  resolve_part example_operators (example_attnames "t2")
    (composed_on "t1") example_ref = Raise ValueError
  /\ resolve_part example_operators (example_attnames "t1")
       (composed_on "t1") example_ref
     = Ok (ComposedQual.set__quals (composed_on "t1")
             [make_resolved (example_attribute "t1") example_operator
                example_ref]).
Proof.
  split.
  - apply (resolve_part_checks_relation example_operators
             (example_attnames "t2") (composed_on "t1") example_ref
             "t1" (example_attribute "t2"));
      [reflexivity | reflexivity | discriminate].
  - apply (resolve_part_checks_relation example_operators
             (example_attnames "t1") (composed_on "t1") example_ref
             "t1" (example_attribute "t1"));
      reflexivity.
Defined.

(** *** The second pass, row by row *)

Lemma comprehension_list (l : list qualref) :
  comprehension (py_iter (QList l))
  = Ok (filter (fun v => relid v <> "0") l).
Proof.
  unfold py_iter. induction l as [|v l IH]; [reflexivity|].
  rewrite fmap_cons, filter_cons.
  change (comprehension (ItemRef v :: (ItemRef <$> l)))
    with (values ← comprehension (ItemRef <$> l);
          Ok (if decide (relid v <> "0") then v :: values else values)).
  rewrite IH. simpl. destruct (decide (relid v <> "0")); reflexivity.
Qed.

Lemma comprehension_one (v : qualref) :
  comprehension (py_iter (QOne v)) = Raise TypeError.
Proof. reflexivity. Qed.

Lemma resolve_row_one operators attnames (r : row) (v : qualref) :
  quals r = QOne v -> resolve_row operators attnames r = Raise TypeError.
Proof.
  intros Hq. unfold resolve_row. rewrite Hq, comprehension_one. reflexivity.
Qed.

Lemma resolve_part_ok operators attnames newqual v cq :
  resolve_part operators attnames newqual v = Ok cq ->
  exists q, resolved_from operators attnames q v /\ extends newqual cq [q].
Proof.
  unfold resolve_part. intros H.
  destruct (subscript attnames (attname_key v)) as [att|] eqn:Hatt;
    simpl in H; [|discriminate].
  destruct (subscript operators (opno v)) as [op|] eqn:Hop.
  - exists (make_resolved att op v). split; [exists att, op; auto|].
    destruct (ComposedQual.relname newqual) as [rel|]; simpl in H.
    + destruct (decide (rel <> relname att)); simpl in H; [discriminate|].
      injection H as <-. repeat split.
    + injection H as <-. repeat split.
  - exfalso.
    destruct (ComposedQual.relname newqual) as [rel|]; simpl in H.
    + destruct (decide (rel <> relname att)); simpl in H; discriminate.
    + discriminate.
Qed.

Lemma resolve_parts_ok operators attnames values : forall newqual cq,
  resolve_parts operators attnames newqual values = Ok cq ->
  exists parts,
    Forall2 (resolved_from operators attnames) parts values
    /\ extends newqual cq parts.
Proof.
  induction values as [|v values IH]; intros newqual cq H; simpl in H.
  - injection H as <-. exists []. split; [constructor|].
    unfold extends. rewrite app_nil_r. repeat split.
  - destruct (resolve_part operators attnames newqual v) as [nq|] eqn:Hv;
      simpl in H; [|discriminate].
    apply resolve_part_ok in Hv as (q & Hq & E1).
    apply IH in H as (parts & Hparts & E2).
    exists (q :: parts). split; [constructor; assumption|].
    destruct E1 as (?&?&?&?&Q1), E2 as (?&?&?&?&Q2).
    unfold extends. rewrite Q2, Q1, <- app_assoc. simpl.
    repeat split; congruence.
Qed.

Lemma resolve_row_ok operators attnames r cq :
  resolve_row operators attnames r = Ok cq ->
  built_from operators attnames r cq.
Proof.
  unfold resolve_row. intros H.
  destruct (quals r) as [l|v] eqn:Hq.
  - rewrite comprehension_list in H. simpl in H.
    apply resolve_parts_ok in H as (parts & Hparts & (?&?&?&?&Q)).
    simpl in *. subst parts. repeat split; try assumption.
    exists l. split; assumption.
  - rewrite comprehension_one in H. discriminate.
Qed.

Lemma resolve_rows_ok operators attnames quallist : forall acc out,
  resolve_rows operators attnames acc quallist = Ok out ->
  exists outs,
    out = acc ++ outs
    /\ Forall2 (built_from operators attnames) quallist outs.
Proof.
  induction quallist as [|r quallist IH]; intros acc out H; simpl in H.
  - injection H as <-. exists []. rewrite app_nil_r. split; constructor.
  - destruct (resolve_row operators attnames r) as [cq|] eqn:Hr;
      simpl in H; [|discriminate].
    apply IH in H as (outs & -> & Hall).
    exists (cq :: outs). rewrite <- app_assoc. split; [reflexivity|].
    constructor; [apply resolve_row_ok; assumption | assumption].
Qed.

Lemma resolve_rows_raise operators attnames quallist r e :
  r ∈ quallist ->
  resolve_row operators attnames r = Raise e ->
  forall acc out, resolve_rows operators attnames acc quallist <> Ok out.
Proof.
  intros Hin Hr. induction quallist as [|r' quallist IH]; intros acc out.
  - inversion Hin.
  - simpl. apply elem_of_cons in Hin as [<-|Hin].
    + rewrite Hr. discriminate.
    + destruct (resolve_row operators attnames r'); simpl;
        [apply IH; assumption | discriminate].
Qed.

(** The two lookups never raise. *)
Lemma lookup_catalogs_returns db quallist log :
  exists operators attnames log',
    lookup_catalogs db quallist log = (Ok (operators, attnames), log').
Proof.
  unfold lookup_catalogs. destruct (to_look quallist) as [ops atts].
  unfold mbind, M_bind, mret, M_ret, execute_opname, execute_attname.
  destruct (decide (ops = ∅)), (decide (atts = ∅)); eauto.
Qed.

Lemma resolve_quals_unfold db quallist log operators attnames log' :
  lookup_catalogs db (rows_of quallist) log
  = (Ok (operators, attnames), log') ->
  resolve_quals db quallist log
  = (resolve_rows operators attnames [] (rows_again quallist), log').
Proof.
  intros H. unfold resolve_quals, mbind, M_bind.
  destruct quallist as [rows|rows]; simpl in *; rewrite H; reflexivity.
Qed.

(** An iterator has no row left for the second loop: the lookups are
    made and the list returned is empty. *)
Lemma resolve_quals_iterator db rows log operators attnames log' :
  lookup_catalogs db rows log = (Ok (operators, attnames), log') ->
  resolve_quals db (Iterator rows) log = (Ok [], log').
Proof.
  intros H. rewrite (resolve_quals_unfold _ (Iterator rows) _ _ _ _ H).
  reflexivity.
Qed.

(** C3: the code does not do what the claim says.  The first pass
    takes a reference that is not in a list as a list of one, but the
    second pass goes through the object itself before it tests for a
    list: for every database, a run over a list of rows one of which
    carries a single reference returns nothing, and over that row
    alone it raises TypeError. *)
Theorem resolve_quals_single_object_raises
    (db : database) (quallist : list row) (r : row) (v : qualref)
    (log : connection) :
  r ∈ quallist ->
  quals r = QOne v ->
  as_list (quals r) = as_list (QList [v])
  /\ (forall out, fst (resolve_quals db (Sequence quallist) log) <> Ok out)
  /\ (quallist = [r] ->
      fst (resolve_quals db (Sequence quallist) log) = Raise TypeError).
Proof.
  intros Hin Hq. split; [rewrite Hq; reflexivity|].
  destruct (lookup_catalogs_returns db quallist log)
    as (operators & attnames & log' & Hl).
  rewrite (resolve_quals_unfold _ (Sequence quallist) _ _ _ _ Hl).
  simpl. split.
  - intros out. apply (resolve_rows_raise _ _ _ r TypeError Hin).
    apply (resolve_row_one _ _ _ v Hq).
  - intros ->. simpl. rewrite (resolve_row_one _ _ _ v Hq). reflexivity.
Qed.

Lemma resolve_quals_single_object_raises_witness :
  fst (resolve_quals example_db
         (Sequence [example_row (QOne example_ref)]) [])
  = Raise TypeError.
Proof.
  apply (resolve_quals_single_object_raises example_db
           [example_row (QOne example_ref)]
           (example_row (QOne example_ref)) example_ref []);
    [apply list_elem_of_here | reflexivity | reflexivity].
Defined.

(** The same reference inside a list of one is resolved. *)
Lemma resolve_quals_list_of_one :
  fst (resolve_quals example_db
         (Sequence [example_row (QList [example_ref])]) [])
  = Ok [ComposedQual.set__quals
          (ComposedQual.__init__ (Some "public") (Some "t1")
             (PNum (PyInt 4)) (PNum (PyFloat 0.5)) (PNum (PyInt 10))
             (PNum (PyInt 1000)) (PNum (PyInt 7)))
          [make_resolved (example_attribute "t1") example_operator
             example_ref]].
Proof. vm_compute. reflexivity. Qed.

(** *** The catalog lookups *)

(** Equal sets by their members, for unions. *)
Ltac by_membership :=
  apply set_eq; intros ?; rewrite !elem_of_union; tauto.

Lemma foldl_look_ref (l : list qualref) : forall sets,
  foldl look_ref sets l
  = (list_to_set (opno <$> l) ∪ sets.1,
     list_to_set ((fun v => (relid v, attnum v)) <$> l) ∪ sets.2).
Proof.
  induction l as [|v l IH]; intros [ops atts]; simpl.
  - rewrite !union_empty_l_L. reflexivity.
  - rewrite IH. simpl. f_equal; by_membership.
Qed.

Lemma foldl_look_row (quallist : list row) : forall sets,
  foldl look_row sets quallist
  = (operator_ids quallist ∪ sets.1, attribute_ids quallist ∪ sets.2).
Proof.
  unfold operator_ids, attribute_ids, all_refs.
  induction quallist as [|r quallist IH]; intros [ops atts]; simpl.
  - rewrite !union_empty_l_L. reflexivity.
  - rewrite IH. unfold look_row. rewrite foldl_look_ref. simpl.
    rewrite !fmap_app, !list_to_set_app_L. f_equal; by_membership.
Qed.

Lemma to_look_ids (quallist : list row) :
  to_look quallist = (operator_ids quallist, attribute_ids quallist).
Proof.
  unfold to_look. rewrite foldl_look_row. simpl.
  rewrite !union_empty_r_L. reflexivity.
Qed.

(** Both sets are empty exactly when no row has a reference. *)
Lemma ids_empty (quallist : list row) :
  (operator_ids quallist = ∅ <-> all_refs quallist = [])
  /\ (attribute_ids quallist = ∅ <-> all_refs quallist = []).
Proof.
  unfold operator_ids, attribute_ids.
  destruct (all_refs quallist) as [|v l]; simpl.
  - split; split; auto.
  - split; split; intros H; try discriminate; exfalso.
    + apply (not_elem_of_empty (C:=gset string) (opno v)).
      rewrite <- H. apply elem_of_union_l, elem_of_singleton. reflexivity.
    + apply (not_elem_of_empty (C:=gset (string * Z)) (relid v, attnum v)).
      rewrite <- H. apply elem_of_union_l, elem_of_singleton. reflexivity.
Qed.

Lemma lookup_catalogs_issued db quallist log :
  lookup_catalogs db quallist log
  = (Ok (if decide (operator_ids quallist = ∅) then Some ∅
         else scalar_opname db (operator_ids quallist),
         if decide (attribute_ids quallist = ∅) then Some ∅
         else scalar_attname db (attribute_ids quallist)),
     log ++ issued quallist).
Proof.
  unfold lookup_catalogs, issued. rewrite to_look_ids.
  unfold mbind, M_bind, mret, M_ret, execute_opname, execute_attname.
  destruct (decide (operator_ids quallist = ∅)),
    (decide (attribute_ids quallist = ∅)); simpl;
    rewrite ?app_nil_r, <- ?app_assoc; reflexivity.
Qed.

(** C4: the code does what the claim says for a sequence of rows
    only.  Over a list, when resolve_quals returns, its list has one
    composed qual for each row, and the composed qual at position [i]
    is the one built from row [i].  Over an iterator the first loop
    takes every row, so the second builds nothing: the lookups are
    made for all the rows and the list returned is empty, whatever the
    rows are. *)
Theorem resolve_quals_one_per_row_of_sequence
    (db : database) (quallist : list row) (log : connection) :
  (forall log' out,
     resolve_quals db (Sequence quallist) log = (Ok out, log') ->
     length out = length quallist
     /\ exists operators attnames,
          lookup_catalogs db quallist log = (Ok (operators, attnames), log')
          /\ forall i r, quallist !! i = Some r ->
               exists cq, out !! i = Some cq
                          /\ built_from operators attnames r cq)
  /\ resolve_quals db (Iterator quallist) log
     = (Ok [], log ++ issued quallist)
  /\ (quallist <> [] ->
      forall out log',
        resolve_quals db (Iterator quallist) log = (Ok out, log') ->
        length out <> length quallist).
Proof.
  split; [|split].
  - intros log' out H.
    destruct (lookup_catalogs_returns db quallist log)
      as (operators & attnames & log1 & Hl).
    rewrite (resolve_quals_unfold _ (Sequence quallist) _ _ _ _ Hl) in H.
    injection H as H <-.
    apply resolve_rows_ok in H as (outs & -> & Hall). simpl.
    split; [symmetry; eapply Forall2_length; eassumption|].
    exists operators, attnames. split; [assumption|].
    intros i r Hi.
    destruct (Forall2_lookup_l _ _ _ _ _ Hall Hi) as (cq & Hcq & Hb).
    exists cq. split; assumption.
  - apply (resolve_quals_iterator _ _ _ _ _ _
             (lookup_catalogs_issued db quallist log)).
  - intros Hne out log' H.
    rewrite (resolve_quals_iterator _ _ _ _ _ _
               (lookup_catalogs_issued db quallist log)) in H.
    injection H as <- _. destruct quallist; [contradiction | discriminate].
Qed.

Lemma resolve_quals_one_per_row_of_sequence_witness :
  (exists out,
     resolve_quals example_db
       (Sequence [example_row (QList [example_ref]); example_row (QList [])])
       []
     = (Ok out,
        [RESOLVE_OPNAME {["96"]}; RESOLVE_ATTNAME {[("16384", 1%Z)]}])
     /\ length out = 2)
  /\ resolve_quals example_db
       (Iterator [example_row (QList [example_ref]); example_row (QList [])])
       []
     = (Ok [], [RESOLVE_OPNAME {["96"]}; RESOLVE_ATTNAME {[("16384", 1%Z)]}]).
Proof.
  split.
  - eexists. split; [vm_compute; reflexivity|].
    eapply (proj1 (resolve_quals_one_per_row_of_sequence example_db
                     [example_row (QList [example_ref]);
                      example_row (QList [])] []) _ _).
    vm_compute. reflexivity.
  - rewrite (proj1 (proj2 (resolve_quals_one_per_row_of_sequence example_db
                             [example_row (QList [example_ref]);
                              example_row (QList [])] []))).
    vm_compute. reflexivity.
Defined.

(** C8: a run asks the database at most twice, whatever iterable the
    rows come from.  With no operator id collected no operator
    statement is executed and the operator mapping is the empty one it
    started as; otherwise the statement is executed once, with the
    whole set bound to it.  The same holds for the attributes.
    Nothing else is executed, whether the second pass returns or
    raises. *)
Theorem resolve_quals_catalog_lookups
    (db : database) (quallist : iterable) (log : connection) :
  lookup_catalogs db (rows_of quallist) log
  = (Ok (if decide (operator_ids (rows_of quallist) = ∅) then Some ∅
         else scalar_opname db (operator_ids (rows_of quallist)),
         if decide (attribute_ids (rows_of quallist) = ∅) then Some ∅
         else scalar_attname db (attribute_ids (rows_of quallist))),
     log ++ issued (rows_of quallist))
  /\ snd (resolve_quals db quallist log) = log ++ issued (rows_of quallist)
  /\ issued (rows_of quallist)
     = (if decide (operator_ids (rows_of quallist) = ∅) then []
        else [RESOLVE_OPNAME (operator_ids (rows_of quallist))])
       ++ (if decide (attribute_ids (rows_of quallist) = ∅) then []
           else [RESOLVE_ATTNAME (attribute_ids (rows_of quallist))])
  /\ length (issued (rows_of quallist)) <= 2.
Proof.
  pose proof (lookup_catalogs_issued db (rows_of quallist) log) as Hl.
  split; [exact Hl|]. split; [|split].
  - rewrite (resolve_quals_unfold _ _ _ _ _ _ Hl). reflexivity.
  - reflexivity.
  - unfold issued.
    destruct (decide (operator_ids (rows_of quallist) = ∅)),
      (decide (attribute_ids (rows_of quallist) = ∅)); simpl; lia.
Qed.

End QualFacts.

(** ** ResolvedQual.distinct_values *)

Section NumberFacts.
Import Examples.



(** [str] of a float on values where the shortest decimals that read
    back are two and the float is half way between them: the one with
    the even last digit is printed. *)
Lemma float_repr_half_way :
  float_repr (0x1.0000000000018p+46)%float = "70368744177664.38"
  /\ float_repr (0x1.0000000000008p+46)%float = "70368744177664.12"
  /\ float_repr (0x1.000018p+6)%float = "64.00009155273438"
  /\ float_repr (0x1.999999999999ap-4)%float = "0.1"
  /\ float_repr (0x1.0f0cf064dd592p+73)%float = "1e+22"
  /\ float_repr (0x1.a36e2eb1c432dp-14)%float = "0.0001"
  /\ float_repr (0x1.a36e2eb1c432dp-15)%float = "5e-05".
Proof. repeat split; vm_compute; reflexivity. Qed.

(** The sample floats are printed as Python prints them, and the text
    printed reads back as the float it was printed from. *)
Lemma float_repr_reads_back :
  Forall (fun sample =>
            float_repr sample.1 = sample.2
            /\ float_of_str sample.2 = Ok sample.1)
    printed_floats.
Proof.
  unfold printed_floats.
  repeat (constructor; [split; vm_compute; reflexivity|]). constructor.
Qed.



End NumberFacts.

(** ** HypoPlan.gain_percent and HypoIndex.ddl *)

Section HypoFacts.
Import Hypo HypoSpec Examples.

(** C5: with both costs read as floats and a base cost that is not
    zero, [gain_percent] is 100 - hypocost*100/basecost rounded to two
    decimals, the value half way between two of them going to the
    even one; costs 100 and 80 give 20.0, costs 100 and 100 give 0.0,
    costs 3 and 1 give 66.67, costs 800 and 799 give 0.12 (from
    0.125), and the texts "35.50" and "8.07", as [get_hypoplans]
    stores them, give 77.27; a base cost of zero raises
    ZeroDivisionError, which nothing catches.  A cost that is a text
    is ASCII text. *)
Theorem gain_percent_formula (self : HypoPlan.t) (h b : float) :
  ascii_value (HypoPlan.hypocost self) = true ->
  ascii_value (HypoPlan.basecost self) = true ->
  py_float (HypoPlan.hypocost self) = Ok h ->
  py_float (HypoPlan.basecost self) = Ok b ->
  (PrimFloat.eqb b 0%float = false ->
   HypoPlan.gain_percent self
   = Ok (py_round2 (100 - h * 100 / b)%float))
  /\ (PrimFloat.eqb b 0%float = true ->
      HypoPlan.gain_percent self = Raise ZeroDivisionError)
  /\ (HypoPlan.basecost self = PNum (PyInt 100) ->
      HypoPlan.hypocost self = PNum (PyInt 80) ->
      HypoPlan.gain_percent self = Ok 20%float)
  /\ (HypoPlan.basecost self = PNum (PyInt 100) ->
      HypoPlan.hypocost self = PNum (PyInt 100) ->
      HypoPlan.gain_percent self = Ok 0%float)
  /\ (HypoPlan.basecost self = PNum (PyInt 0) ->
      HypoPlan.gain_percent self = Raise ZeroDivisionError)
  /\ (HypoPlan.basecost self = PNum (PyInt 3) ->
      HypoPlan.hypocost self = PNum (PyInt 1) ->
      HypoPlan.gain_percent self = Ok (0x1.0aae147ae147bp+6)%float
      /\ float_repr (0x1.0aae147ae147bp+6)%float = "66.67")
  /\ (HypoPlan.basecost self = PNum (PyInt 800) ->
      HypoPlan.hypocost self = PNum (PyInt 799) ->
      HypoPlan.gain_percent self = Ok (0x1.eb851eb851eb8p-4)%float
      /\ float_repr (0x1.eb851eb851eb8p-4)%float = "0.12")
  /\ (HypoPlan.basecost self = PStr "35.50" ->
      HypoPlan.hypocost self = PStr "8.07" ->
      HypoPlan.gain_percent self = Ok (0x1.35147ae147ae1p+6)%float
      /\ float_repr (0x1.35147ae147ae1p+6)%float = "77.27").
Proof.
  intros _ _ Hh Hb. unfold HypoPlan.gain_percent.
  split; [|split; [|split; [|split; [|split; [|split; [|split]]]]]].
  - intros Hz. rewrite Hh, Hb. simpl. unfold float_truediv.
    rewrite Hz. reflexivity.
  - intros Hz. rewrite Hh, Hb. simpl. unfold float_truediv.
    rewrite Hz. reflexivity.
  - intros -> ->. vm_compute. reflexivity.
  - intros -> ->. vm_compute. reflexivity.
  - intros Hzero. rewrite Hh, Hzero. reflexivity.
  - intros -> ->. split; vm_compute; reflexivity.
  - intros -> ->. split; vm_compute; reflexivity.
  - intros -> ->. split; vm_compute; reflexivity.
Qed.

Lemma gain_percent_formula_witness :
  HypoPlan.gain_percent (int_costs 100 80) = Ok 20%float
  /\ HypoPlan.gain_percent (plan_with_costs (PNum (PyFloat 8)) (PNum (PyFloat 1)))
     = Ok 87.5%float
  /\ HypoPlan.gain_percent (plan_with_costs (PNum (PyFloat 0)) (PNum (PyFloat 80)))
     = Raise ZeroDivisionError
  /\ HypoPlan.gain_percent (int_costs 3 1) = Ok (0x1.0aae147ae147bp+6)%float
  /\ HypoPlan.gain_percent (int_costs 800 799)
     = Ok (0x1.eb851eb851eb8p-4)%float
  /\ HypoPlan.gain_percent (plan_with_costs (PStr "35.50") (PStr "8.07"))
     = Ok (0x1.35147ae147ae1p+6)%float.
Proof.
  split; [|split; [|split; [|split; [|split]]]].
  - apply (gain_percent_formula (int_costs 100 80) 80%float 100%float);
      reflexivity.
  - apply (proj1 (gain_percent_formula
                    (plan_with_costs (PNum (PyFloat 8)) (PNum (PyFloat 1)))
                    1%float 8%float eq_refl eq_refl eq_refl eq_refl)).
    reflexivity.
  - apply (proj1 (proj2 (gain_percent_formula
                           (plan_with_costs (PNum (PyFloat 0))
                              (PNum (PyFloat 80)))
                           80%float 0%float eq_refl eq_refl eq_refl
                           eq_refl))).
    reflexivity.
  - apply (gain_percent_formula (int_costs 3 1) 1%float 3%float);
      reflexivity.
  - apply (gain_percent_formula (int_costs 800 799) 799%float 800%float);
      reflexivity.
  - apply (gain_percent_formula
             (plan_with_costs (PStr "35.50") (PStr "8.07"))
             (0x1.023d70a3d70a4p+3)%float 35.5%float);
      reflexivity.
Defined.

(** A cost that is no number and does not read as one: [float()]
    raises before anything is computed. *)
Lemma gain_percent_unreadable :
  HypoPlan.gain_percent (plan_with_costs (PStr "35.50") (PStr "n/a"))
  = Raise ValueError
  /\ HypoPlan.gain_percent (plan_with_costs (PStr "35.50") PNone)
     = Raise TypeError.
Proof. split; vm_compute; reflexivity. Qed.

(** C6: [ddl] is [None] for every access method other than btree; for
    btree it is CREATE INDEX ON, the quoted schema and relation, and
    the quoted columns in their order between commas; on schema s,
    relation t and columns a, b that is the text of the claim. *)
Theorem ddl_btree_only (self : HypoIndex.t) :
  (HypoIndex.amname self <> "btree" -> HypoIndex.ddl self = Ok None)
  /\ (HypoIndex.amname self = "btree" ->
      forall quals, HypoIndex.qual self = Some quals ->
        HypoIndex.ddl self
        = Ok (Some ("CREATE INDEX ON "
                      +:+ quote_ident (HypoIndex.nspname self) +:+ "."
                      +:+ quote_ident (HypoIndex.relname self) +:+ "("
                      +:+ String.concat ","
                            (quote_ident <$>
                               (ResolvedQual.attname <$> quals))
                      +:+ ")")))
  /\ (HypoIndex.amname self = "btree" ->
      HypoIndex.nspname self = "s" ->
      HypoIndex.relname self = "t" ->
      forall qa qb,
        ResolvedQual.attname qa = "a" ->
        ResolvedQual.attname qb = "b" ->
        HypoIndex.qual self = Some [qa; qb] ->
        HypoIndex.ddl self
        = Ok (Some (with_dquotes "CREATE INDEX ON 's'.'t'('a','b')"))).
Proof.
  unfold HypoIndex.ddl. split; [|split].
  - intros Hne. destruct (decide ("btree" = HypoIndex.amname self)) as [E|_];
      [exfalso; apply Hne; symmetry; exact E | reflexivity].
  - intros Ham quals Hq.
    destruct (decide ("btree" = HypoIndex.amname self)) as [_|E];
      [|exfalso; apply E; symmetry; exact Ham].
    rewrite Hq, <- list_fmap_compose. reflexivity.
  - intros Ham Hn Hr qa qb Ha Hb Hq.
    destruct (decide ("btree" = HypoIndex.amname self)) as [_|E];
      [|exfalso; apply E; symmetry; exact Ham].
    rewrite Hq, Hn, Hr. simpl. rewrite Ha, Hb. reflexivity.
Qed.

Lemma ddl_btree_only_witness :
  HypoIndex.ddl (index_on "s" "t" "brin" ["a"; "b"]) = Ok None
  /\ HypoIndex.ddl (index_on "s" "t" "btree" ["a"; "b"])
     = Ok (Some (with_dquotes "CREATE INDEX ON 's'.'t'('a','b')")).
Proof.
  split.
  - apply (ddl_btree_only (index_on "s" "t" "brin" ["a"; "b"])).
    discriminate.
  - apply (ddl_btree_only (index_on "s" "t" "btree" ["a"; "b"])
             ) with (qa := example_part_named "a")
                    (qb := example_part_named "b"); reflexivity.
Defined.

(** *** possible_indexes *)

Lemma group_by_am_appends (cq : ComposedQual.t) :
  group_by_am cq = foldl by_am_step [] (appends (ComposedQual._quals cq)).
Proof.
  unfold group_by_am, ComposedQual.__iter__, appends.
  generalize (@nil (string * list part)).
  induction (ComposedQual._quals cq) as [|q parts IH]; intros acc; simpl.
  - reflexivity.
  - rewrite foldl_app, IH. f_equal.
    unfold group_qual. rewrite foldl_fmap. reflexivity.
Qed.

Lemma by_am_get_append (am' am : string) (q : part) by_am :
  by_am_get am' (by_am_append by_am am q)
  = if decide (am' = am)
    then Some (default [] (by_am_get am by_am) ++ [q])
    else by_am_get am' by_am.
Proof.
  induction by_am as [|[k quals] by_am IH]; simpl.
  - destruct (decide (am = am')), (decide (am' = am)); subst;
      try reflexivity; exfalso; auto.
  - destruct (decide (k = am)) as [->|Hk]; simpl.
    + destruct (decide (am = am')) as [<-|Hne].
      * rewrite decide_True by reflexivity. reflexivity.
      * rewrite decide_False by auto. reflexivity.
    + destruct (decide (k = am')) as [->|Hk'].
      * rewrite decide_False by auto. reflexivity.
      * exact IH.
Qed.

Lemma by_am_keys_append (am : string) (q : part) by_am :
  (by_am_append by_am am q).*1
  = if decide (am ∈ by_am.*1) then by_am.*1 else by_am.*1 ++ [am].
Proof.
  induction by_am as [|[k quals] by_am IH].
  - destruct (decide (am ∈ ([] : list (string * list part)).*1)) as [H|_];
      [inversion H | reflexivity].
  - cbn [by_am_append]. rewrite fmap_cons. cbn [fst].
    destruct (decide (k = am)) as [->|Hk].
    + rewrite fmap_cons. cbn [fst].
      destruct (decide (am ∈ am :: by_am.*1)) as [_|H]; [reflexivity|].
      exfalso. apply H, list_elem_of_here.
    + rewrite fmap_cons, IH. cbn [fst].
      destruct (decide (am ∈ by_am.*1)) as [Hin|Hout],
        (decide (am ∈ k :: by_am.*1)) as [Hin'|Hout']; try reflexivity.
      * exfalso. apply Hout', list_elem_of_further, Hin.
      * exfalso. apply elem_of_cons in Hin' as [E|Hin']; auto.
Qed.

Lemma by_am_keys_NoDup (es : list (string * part)) : forall by_am,
  NoDup by_am.*1 -> NoDup (foldl by_am_step by_am es).*1.
Proof.
  induction es as [|[am q] es IH]; intros by_am Hnd; simpl; [exact Hnd|].
  apply IH. unfold by_am_step. simpl. rewrite by_am_keys_append.
  destruct (decide (am ∈ by_am.*1)) as [Hin|Hout]; [exact Hnd|].
  apply NoDup_app. split; [exact Hnd|]. split.
  - intros x Hx ->%list_elem_of_singleton. contradiction.
  - apply NoDup_singleton.
Qed.

Lemma by_am_get_foldl (am : string) (es : list (string * part)) :
  forall by_am,
    by_am_get am (foldl by_am_step by_am es)
    = match appended am es with
      | [] => by_am_get am by_am
      | g => Some (default [] (by_am_get am by_am) ++ g)
      end.
Proof.
  unfold appended.
  induction es as [|[am' q] es IH]; intros by_am; simpl; [reflexivity|].
  rewrite IH. unfold by_am_step. cbn [fst snd].
  rewrite by_am_get_append, filter_cons. cbn [fst].
  destruct (decide (am' = am)) as [->|Hne].
  - destruct (decide (am = am)) as [_|E]; [|exfalso; auto].
    rewrite fmap_cons. cbn [snd].
    destruct (snd <$> filter (fun e => e.1 = am) es) as [|x g];
      [reflexivity|].
    simpl. rewrite <- app_assoc. reflexivity.
  - destruct (decide (am = am')) as [E|_]; [exfalso; auto|].
    reflexivity.
Qed.

Lemma by_am_get_elem (am : string) (quals : list part) by_am :
  NoDup by_am.*1 ->
  ((am, quals) ∈ by_am <-> by_am_get am by_am = Some quals).
Proof.
  induction by_am as [|[k g] by_am IH]; simpl; intros Hnd.
  - split; [intros H; inversion H | discriminate].
  - apply NoDup_cons in Hnd as [Hk Hnd]. specialize (IH Hnd).
    rewrite elem_of_cons. destruct (decide (k = am)) as [->|Hne].
    + split.
      * intros [E|Hin]; [injection E as ->; reflexivity|].
        exfalso. apply Hk.
        change am with (fst (am, quals)). apply list_elem_of_fmap_2, Hin.
      * intros [= ->]. left. reflexivity.
    + rewrite <- IH. split; [intros [E|H]; [|exact H] | auto].
      injection E as -> ->. contradiction.
Qed.

(** With no method listed twice by a part, the parts appended under a
    method are the parts that list it. *)
Lemma appended_once (am : string) (q : part) (ams : list string) :
  NoDup ams ->
  appended am ((fun a => (a, q)) <$> ams)
  = if decide (am ∈ ams) then [q] else [].
Proof.
  unfold appended. induction ams as [|a ams IH]; intros Hnd.
  - rewrite fmap_nil, filter_nil, fmap_nil.
    destruct (decide (am ∈ ([] : list string))) as [H|_];
      [inversion H | reflexivity].
  - apply NoDup_cons in Hnd as [Ha Hnd]. specialize (IH Hnd).
    rewrite fmap_cons, filter_cons. cbn [fst].
    destruct (decide (a = am)) as [->|Hne].
    + rewrite fmap_cons, IH. cbn [snd].
      destruct (decide (am ∈ ams)) as [Hin|_]; [contradiction|].
      destruct (decide (am ∈ am :: ams)) as [_|H]; [reflexivity|].
      exfalso. apply H, list_elem_of_here.
    + rewrite IH.
      destruct (decide (am ∈ ams)) as [Hin|Hout],
        (decide (am ∈ a :: ams)) as [Hin'|Hout']; try reflexivity.
      * exfalso. apply Hout', list_elem_of_further, Hin.
      * exfalso. apply elem_of_cons in Hin' as [E|Hin']; auto.
Qed.

Lemma appended_filter (am : string) (parts : list part) :
  Forall (fun q => NoDup (names q)) parts ->
  appended am (appends parts) = filter (fun q => am ∈ names q) parts.
Proof.
  unfold appends. induction 1 as [|q parts Hq _ IH]; [reflexivity|].
  rewrite bind_cons, filter_cons. unfold appended in *.
  rewrite filter_app, fmap_app, IH.
  pose proof (appended_once am q (names q) Hq) as Hone.
  unfold appended in Hone. rewrite Hone.
  destruct (decide (am ∈ names q)); reflexivity.
Qed.

Lemma appended_elem (am : string) (parts : list part) (q : part) :
  q ∈ appended am (appends parts) <-> q ∈ parts /\ am ∈ names q.
Proof.
  unfold appended, appends. rewrite list_elem_of_fmap. split.
  - intros ([a q'] & -> & [Ha Hin]%list_elem_of_filter). simpl in *. subst a.
    apply list_elem_of_bind in Hin as (p & Hin & Hp).
    apply list_elem_of_fmap in Hin as (a & [= -> ->] & Ha). auto.
  - intros [Hq Ham]. exists (am, q). split; [reflexivity|].
    apply list_elem_of_filter. split; [reflexivity|].
    apply list_elem_of_bind. exists q. split; [|exact Hq].
    apply list_elem_of_fmap. exists am. auto.
Qed.

Lemma make_indexes_ok (items : list (string * list part)) : forall acc,
  Forall (fun item => item.2 <> []) items ->
  exists indexes,
    make_indexes acc items = Ok (acc ++ indexes)
    /\ Forall2 index_for items indexes.
Proof.
  induction items as [|[am quals] items IH]; intros acc Hne; simpl.
  - exists []. rewrite app_nil_r. split; [reflexivity | constructor].
  - apply Forall_cons in Hne as [Hq Hne]. simpl in Hq.
    destruct quals as [|base rest]; [contradiction|]. simpl.
    destruct (IH (acc ++ [HypoIndex.__init__ (ResolvedQual.nspname base)
                            (ResolvedQual.relname base) am
                            (Some (base :: rest))]) Hne)
      as (indexes & -> & Hall).
    eexists (_ :: indexes). rewrite <- app_assoc. split; [reflexivity|].
    constructor; [|exact Hall]. exists base, rest. auto.
Qed.

Lemma index_for_amnames (items : list (string * list part))
    (indexes : list HypoIndex.t) :
  Forall2 index_for items indexes ->
  HypoIndex.amname <$> indexes = items.*1.
Proof.
  induction 1 as [|item index items indexes (base & rest & _ & ->) _ IH];
    [reflexivity|].
  rewrite !fmap_cons, IH. reflexivity.
Qed.

Lemma group_by_am_get (cq : ComposedQual.t) (am : string) :
  by_am_get am (group_by_am cq)
  = match appended am (appends (ComposedQual._quals cq)) with
    | [] => None
    | g => Some g
    end.
Proof.
  rewrite group_by_am_appends, by_am_get_foldl. reflexivity.
Qed.

Lemma group_by_am_NoDup (cq : ComposedQual.t) :
  NoDup (group_by_am cq).*1.
Proof.
  rewrite group_by_am_appends. apply by_am_keys_NoDup, NoDup_nil_2.
Qed.

(** Every list of [by_am] is the list of the parts appended under its
    method, and has a first member. *)
Lemma group_by_am_elem (cq : ComposedQual.t) (am : string)
    (quals : list part) :
  (am, quals) ∈ group_by_am cq ->
  quals = appended am (appends (ComposedQual._quals cq)) /\ quals <> [].
Proof.
  intros Hin.
  apply (by_am_get_elem _ _ _ (group_by_am_NoDup cq)) in Hin.
  rewrite group_by_am_get in Hin.
  destruct (appended am (appends (ComposedQual._quals cq))) as [|q g];
    [discriminate|].
  injection Hin as <-. split; [reflexivity | discriminate].
Qed.

Lemma group_by_am_key (cq : ComposedQual.t) (am : string) :
  am ∈ (group_by_am cq).*1
  <-> exists q, q ∈ ComposedQual._quals cq /\ am ∈ names q.
Proof.
  split.
  - intros ([am' quals] & -> & Hin)%list_elem_of_fmap. simpl.
    apply group_by_am_elem in Hin as [-> Hne].
    destruct (appended am' (appends (ComposedQual._quals cq)))
      as [|q g] eqn:E; [contradiction|].
    exists q. apply appended_elem. rewrite E. apply list_elem_of_here.
  - intros (q & Hq).
    apply appended_elem in Hq.
    pose proof (group_by_am_get cq am) as Hget.
    destruct (appended am (appends (ComposedQual._quals cq)))
      as [|q' g] eqn:E; [inversion Hq|].
    apply (by_am_get_elem _ _ _ (group_by_am_NoDup cq)) in Hget.
    change am with (fst (am, q' :: g)). apply list_elem_of_fmap_2, Hget.
Qed.

(** C7: for every composed qual, [possible_indexes] returns one index
    for each access method that a part supports and no other; the
    index of a method holds the parts that support it, and it has the
    schema and relation of the first of them.  When no part lists a
    method twice (the catalog query lists each once) the index holds
    exactly those parts, each once, in their original order.  Two parts
    that support btree and brin give two indexes, each with its own
    part. *)
Theorem possible_indexes_one_per_method :
  (forall cq : ComposedQual.t,
     exists indexes,
       possible_indexes cq = Ok indexes
       /\ NoDup (HypoIndex.amname <$> indexes)
       /\ (forall am,
             am ∈ HypoIndex.amname <$> indexes
             <-> exists q, q ∈ ComposedQual._quals cq /\ am ∈ names q)
       /\ (forall index, index ∈ indexes ->
             exists base rest,
               HypoIndex.qual index = Some (base :: rest)
               /\ HypoIndex.nspname index = ResolvedQual.nspname base
               /\ HypoIndex.relname index = ResolvedQual.relname base
               /\ (forall q,
                     q ∈ base :: rest
                     <-> q ∈ ComposedQual._quals cq
                         /\ HypoIndex.amname index ∈ names q)
               /\ (Forall (fun q => NoDup (names q))
                     (ComposedQual._quals cq) ->
                   base :: rest
                   = filter (fun q => HypoIndex.amname index ∈ names q)
                       (ComposedQual._quals cq))))
  /\ possible_indexes
       (composed_of [part_supporting "a" ["btree"];
                     part_supporting "b" ["brin"]])
     = Ok [HypoIndex.__init__ "s" "t" "btree"
             (Some [part_supporting "a" ["btree"]]);
           HypoIndex.__init__ "s" "t" "brin"
             (Some [part_supporting "b" ["brin"]])].
Proof.
  split; [|reflexivity].
  intros cq. unfold possible_indexes.
  destruct (make_indexes_ok (group_by_am cq) []) as (indexes & Hok & Hall).
  { apply Forall_forall. intros [am quals] Hin.
    apply group_by_am_elem in Hin as [_ Hne]. exact Hne. }
  exists indexes. split; [exact Hok|].
  rewrite (index_for_amnames _ _ Hall).
  split; [apply group_by_am_NoDup|]. split; [apply group_by_am_key|].
  intros index [i Hi]%list_elem_of_lookup.
  destruct (Forall2_lookup_r _ _ _ _ _ Hall Hi)
    as ([am quals] & Hitem & base & rest & Hq & ->).
  simpl in Hq. subst quals.
  apply list_elem_of_lookup_2, group_by_am_elem in Hitem as [Hg _].
  exists base, rest. simpl.
  split; [reflexivity|]. split; [reflexivity|]. split; [reflexivity|].
  rewrite Hg. split.
  - intros q. apply appended_elem.
  - intros Hnd. apply appended_filter, Hnd.
Qed.

Lemma possible_indexes_one_per_method_witness :
  exists indexes,
    possible_indexes
      (composed_of [part_supporting "a" ["btree"; "gist"];
                    part_supporting "b" ["brin"; "btree"]])
    = Ok indexes
    /\ HypoIndex.amname <$> indexes = ["btree"; "gist"; "brin"]
    /\ NoDup (HypoIndex.amname <$> indexes).
Proof.
  destruct (proj1 possible_indexes_one_per_method
              (composed_of [part_supporting "a" ["btree"; "gist"];
                            part_supporting "b" ["brin"; "btree"]]))
    as (indexes & Hok & Hnd & _).
  exists indexes. split; [exact Hok|]. split; [|exact Hnd].
  vm_compute in Hok. injection Hok as <-. reflexivity.
Defined.

End HypoFacts.

(** ** qual_constants *)

Section ConstantsFacts.
Import Constants Examples.

Lemma criteria_elem (type : string) :
  type ∈ criteria
  <-> type = "most_executed" \/ type = "most_filtering"
      \/ type = "least_filtering".
Proof.
  unfold criteria. rewrite !elem_of_cons, elem_of_nil. tauto.
Qed.

Lemma orders_criteria (type : string) :
  type ∈ criteria -> exists order, orders !! type = Some order.
Proof.
  intros [->| [->| ->]]%criteria_elem; eexists; reflexivity.
Qed.

(** C10: for a criterion that is none of the three, [qual_constants]
    returns [None] whatever the filter clause is, also one whose
    compilation would raise: the clause is not looked at.  A query is
    returned for the three criteria only, built from the compiled
    clause and the order of the criterion when the clause compiles and
    none of its parameters is named top_value or self. *)
Theorem qual_constants_unknown_criterion :
  (forall type filter_clause top,
     type <> "most_executed" ->
     type <> "most_filtering" ->
     type <> "least_filtering" ->
     qual_constants type filter_clause top = Ok None)
  /\ (forall type filter_clause top query,
        qual_constants type filter_clause top = Ok (Some query) ->
        type = "most_executed" \/ type = "most_filtering"
        \/ type = "least_filtering")
  /\ (forall type filter_clause top c,
        type ∈ criteria ->
        compile filter_clause = Ok c ->
        "top_value" ∉ (params c).*1 ->
        "self" ∉ (params c).*1 ->
        exists order,
          orders !! type = Some order
          /\ qual_constants type filter_clause top
             = Ok (Some
                 {| columns := ["*"];
                    from_obj :=
                      {| text :=
                           sample_unnest +:+ type +:+ sample_where
                             +:+ compiled_str c +:+ sample_order +:+ order
                             +:+ sample_limit +:+ type +:+ sample_alias;
                         bound := ("top_value", top) :: params c |} |})).
Proof.
  split; [|split].
  - intros type fc top H1 H2 H3. unfold qual_constants.
    destruct (decide (type ∉ criteria)) as [_|Hin]; [reflexivity|].
    exfalso. apply Hin. rewrite criteria_elem. tauto.
  - intros type fc top query H. unfold qual_constants in H.
    destruct (decide (type ∉ criteria)) as [_|Hin]; [discriminate|].
    apply criteria_elem. destruct (decide (type ∈ criteria)); tauto.
  - intros type fc top c Hin Hc Htop Hself.
    destruct (orders_criteria type Hin) as [order Ho].
    exists order. split; [exact Ho|]. unfold qual_constants.
    destruct (decide (type ∉ criteria)) as [Hout|_]; [contradiction|].
    rewrite Hc. simpl. unfold getitem. rewrite Ho. simpl.
    unfold with_params.
    destruct (decide ("top_value" ∈ (params c).*1)); [contradiction|].
    destruct (decide ("self" ∈ (params c).*1)); [contradiction|].
    reflexivity.
Qed.

Lemma qual_constants_unknown_criterion_witness :
  qual_constants "most filtering" raising_clause (PNum (PyInt 1)) = Ok None
  /\ qual_constants "least_executed" database_clause (PNum (PyInt 1))
     = Ok None
  /\ exists query,
       qual_constants "most_filtering" database_clause (PNum (PyInt 1))
       = Ok (Some query)
       /\ bound (from_obj query)
          = [("top_value", PNum (PyInt 1)); ("database", PStr "bench")].
Proof.
  split; [|split].
  - apply qual_constants_unknown_criterion; discriminate.
  - apply qual_constants_unknown_criterion; discriminate.
  - destruct (proj2 (proj2 qual_constants_unknown_criterion)
                "most_filtering" database_clause (PNum (PyInt 1))
                {| compiled_str := "datname = :database";
                   params := [("database", PStr "bench")] |})
      as (order & _ & Hq).
    + apply criteria_elem. right. left. reflexivity.
    + reflexivity.
    + intros H. apply list_elem_of_singleton in H. discriminate H.
    + intros H. apply list_elem_of_singleton in H. discriminate H.
    + eexists. split; [exact Hq | reflexivity].
Defined.

End ConstantsFacts.

(* ================================================================== *)
(** * Further properties *)

(** ** format_jumbled_query and get_plans *)

Section PlansFacts.
Import Jumble JumbleSpec Plans PlansSpec.

Local Open Scope nat_scope.

Lemma placeholders_app (a b : string) :
  placeholders (a +:+ b) = placeholders a + placeholders b.
Proof.
  induction a as [|c a IH]; simpl; [reflexivity|].
  destruct (Ascii.eqb c "?"); rewrite IH; reflexivity.
Qed.

Lemma substitute_without_placeholders (sql : string) (params : list string) :
  placeholders sql = 0 -> substitute_while_available sql params = sql.
Proof.
  induction sql as [|c sql IH]; simpl; [reflexivity|].
  destruct (Ascii.eqb c "?"); [discriminate|].
  intros H. rewrite (IH H). reflexivity.
Qed.

Lemma substitute_clean (sql : string) : forall params,
  placeholders sql <= length params ->
  Forall (fun c => placeholders c = 0) params ->
  placeholders (substitute_while_available sql params) = 0.
Proof.
  induction sql as [|c sql IH]; intros params Hlen Hclean; simpl in *.
  - reflexivity.
  - destruct (Ascii.eqb c "?") eqn:Hc.
    + destruct params as [|v params]; simpl in Hlen; [lia|].
      apply Forall_cons in Hclean as [Hv Hclean].
      rewrite placeholders_app, Hv. simpl. apply IH; [lia | exact Hclean].
    + simpl. rewrite Hc. apply IH; assumption.
Qed.

Lemma format_jumbled_query_substituted (sql : string) (params : list string) :
  format_jumbled_query sql params = Ok (substituted sql params).
Proof.
  unfold substituted.
  destruct (decide (placeholders sql <= length params)) as [H|H].
  - apply format_jumbled_query_enough, H.
  - apply format_jumbled_query_short. lia.
Qed.

(** X1: once a query has been formatted with enough constants, none of
    which holds a question mark, no placeholder is left in it, and
    formatting the result again, with any constants, changes nothing. *)
Theorem format_jumbled_query_settles
    (sql : string) (params params' : list string) :
  placeholders sql <= length params ->
  Forall (fun c => placeholders c = 0) params ->
  exists formatted,
    format_jumbled_query sql params = Ok formatted
    /\ placeholders formatted = 0
    /\ format_jumbled_query formatted params' = Ok formatted.
Proof.
  intros Hlen Hclean. exists (substitute_while_available sql params).
  pose proof (substitute_clean sql params Hlen Hclean) as H0.
  split; [apply format_jumbled_query_enough, Hlen|].
  split; [exact H0|].
  rewrite format_jumbled_query_enough by lia.
  rewrite substitute_without_placeholders by exact H0. reflexivity.
Qed.

Lemma format_jumbled_query_settles_witness :
  exists formatted,
    format_jumbled_query "a = ? AND b = ?" ["1"; "2"] = Ok formatted
    /\ placeholders formatted = 0
    /\ format_jumbled_query formatted ["3"; "4"] = Ok formatted.
Proof.
  apply (format_jumbled_query_settles "a = ? AND b = ?" ["1"; "2"]
           ["3"; "4"]).
  - simpl. lia.
  - repeat constructor.
Defined.

Lemma explain_plan_text (self : handler) (query database : string)
    (log : executed) :
  explain self query database log
  = (Ok (plan_text self query database),
     log ++ [("EXPLAIN " +:+ query, database)]).
Proof.
  unfold explain, try_except_any, self_execute, plan_text, mbind, M_bind.
  destruct (execute self ("EXPLAIN " +:+ query) database); reflexivity.
Qed.

(** One turn of the loop, for a key that [qual] has. *)
Lemma get_plans_loop_turn self database qual key keys' query plans log vals :
  qual !! key = Some vals ->
  get_plans_loop self database qual (key :: keys') query plans log
  = get_plans_loop self database qual keys'
      (substituted query (Vals.constants vals))
      (plans ++ [plan_of self database key vals
                   (substituted query (Vals.constants vals))])
      (log ++ [("EXPLAIN " +:+ substituted query (Vals.constants vals),
                database)]).
Proof.
  intros Hkey. cbn [get_plans_loop]. unfold getitem. rewrite Hkey.
  unfold mbind at 1, M_bind at 1, lift at 1.
  unfold mbind at 1, M_bind at 1, lift at 1.
  rewrite format_jumbled_query_substituted.
  unfold mbind at 1, M_bind at 1. rewrite explain_plan_text. reflexivity.
Qed.

(** X2: when [qual] has the three ranking keys, [get_plans] returns
    three plans, titled by the keys in their fixed order, and sends
    exactly three EXPLAIN statements to the database; a statement that
    fails leaves "N/A" as its plan and nothing is raised.  Each plan's
    query is formatted from the query of the plan before it, not from
    the query given. *)
Theorem get_plans_three_plans
    (self : handler) (query database : string)
    (qual : gmap string Vals.t) (v1 v2 v3 : Vals.t) (log : executed) :
  qual !! "most filtering" = Some v1 ->
  qual !! "least filtering" = Some v2 ->
  qual !! "most executed" = Some v3 ->
  let q1 := substituted query (Vals.constants v1) in
  let q2 := substituted q1 (Vals.constants v2) in
  let q3 := substituted q2 (Vals.constants v3) in
  get_plans self query database qual log
  = (Ok [plan_of self database "most filtering" v1 q1;
         plan_of self database "least filtering" v2 q2;
         plan_of self database "most executed" v3 q3],
     log ++ [("EXPLAIN " +:+ q1, database);
             ("EXPLAIN " +:+ q2, database);
             ("EXPLAIN " +:+ q3, database)]).
Proof.
  intros H1 H2 H3 q1 q2 q3. unfold get_plans, keys.
  rewrite (get_plans_loop_turn _ _ _ _ _ _ _ _ _ H1).
  rewrite (get_plans_loop_turn _ _ _ _ _ _ _ _ _ H2).
  rewrite (get_plans_loop_turn _ _ _ _ _ _ _ _ _ H3).
  cbn [get_plans_loop]. rewrite <- !app_assoc. reflexivity.
Qed.

Lemma get_plans_three_plans_witness :
  get_plans failing_handler "SELECT * FROM t WHERE a = ?" "bench"
    (three_samples ["1"] [] ["3"]) []
  = (Ok [plan_of failing_handler "bench" "most filtering" (vals_of ["1"])
           "SELECT * FROM t WHERE a = 1";
         plan_of failing_handler "bench" "least filtering" (vals_of [])
           "SELECT * FROM t WHERE a = 1";
         plan_of failing_handler "bench" "most executed" (vals_of ["3"])
           "SELECT * FROM t WHERE a = 1"],
     [("EXPLAIN SELECT * FROM t WHERE a = 1", "bench");
      ("EXPLAIN SELECT * FROM t WHERE a = 1", "bench");
      ("EXPLAIN SELECT * FROM t WHERE a = 1", "bench")]).
Proof.
  apply (get_plans_three_plans failing_handler
           "SELECT * FROM t WHERE a = ?" "bench"
           (three_samples ["1"] [] ["3"])
           (vals_of ["1"]) (vals_of []) (vals_of ["3"]) []);
    reflexivity.
Defined.

(** X3: when the first sample has a constant for every placeholder and
    no constant holds a question mark, the three plans carry one and
    the same query, the one formatted with the first sample's
    constants: the constants of the other two samples are recorded in
    their plans but never reach the text that is explained. *)
Theorem get_plans_first_sample_only
    (self : handler) (query database : string)
    (qual : gmap string Vals.t) (v1 v2 v3 : Vals.t) (log : executed) :
  qual !! "most filtering" = Some v1 ->
  qual !! "least filtering" = Some v2 ->
  qual !! "most executed" = Some v3 ->
  placeholders query <= length (Vals.constants v1) ->
  Forall (fun c => placeholders c = 0) (Vals.constants v1) ->
  let q := substitute_while_available query (Vals.constants v1) in
  get_plans self query database qual log
  = (Ok [plan_of self database "most filtering" v1 q;
         plan_of self database "least filtering" v2 q;
         plan_of self database "most executed" v3 q],
     log ++ [("EXPLAIN " +:+ q, database);
             ("EXPLAIN " +:+ q, database);
             ("EXPLAIN " +:+ q, database)]).
Proof.
  intros H1 H2 H3 Hlen Hclean q.
  rewrite (get_plans_loop_turn _ _ _ _ _ _ _ _ _ H1 : get_plans _ _ _ _ _ = _).
  assert (Hq1 : substituted query (Vals.constants v1) = q).
  { unfold substituted. rewrite decide_True by exact Hlen. reflexivity. }
  assert (Hq0 : placeholders q = 0) by (apply substitute_clean; assumption).
  assert (Hq : forall params, substituted q params = q).
  { intros params. unfold substituted.
    rewrite decide_True by (rewrite Hq0; lia).
    apply substitute_without_placeholders, Hq0. }
  rewrite Hq1.
  rewrite (get_plans_loop_turn _ _ _ _ _ _ _ _ _ H2), Hq.
  rewrite (get_plans_loop_turn _ _ _ _ _ _ _ _ _ H3), Hq.
  cbn [get_plans_loop]. rewrite <- !app_assoc. reflexivity.
Qed.

Lemma get_plans_first_sample_only_witness :
  exists plans,
    (get_plans answering_handler "SELECT * FROM t WHERE a = ?"
       "bench" (three_samples ["1"] ["2"] ["3"]) []).1 = Ok plans
    /\ query <$> plans
       = ["SELECT * FROM t WHERE a = 1"; "SELECT * FROM t WHERE a = 1";
          "SELECT * FROM t WHERE a = 1"].
Proof.
  rewrite (get_plans_first_sample_only answering_handler
             "SELECT * FROM t WHERE a = ?" "bench"
             (three_samples ["1"] ["2"] ["3"])
             (vals_of ["1"]) (vals_of ["2"]) (vals_of ["3"]) []);
    [ | reflexivity | reflexivity | reflexivity
    | simpl; lia | repeat constructor].
  eexists. split; reflexivity.
Defined.

(** X4: a ranking key that [qual] lacks raises KeyError, but only
    when its turn comes: the EXPLAIN statements of the keys before it
    have been sent by then, and the plans made for them are lost.
    Without the first key nothing is sent. *)
Theorem get_plans_missing_key
    (self : handler) (query database : string)
    (qual : gmap string Vals.t) (log : executed) :
  (qual !! "most filtering" = None ->
   get_plans self query database qual log = (Raise KeyError, log))
  /\ (forall v1,
        qual !! "most filtering" = Some v1 ->
        qual !! "least filtering" = None ->
        let q1 := substituted query (Vals.constants v1) in
        get_plans self query database qual log
        = (Raise KeyError, log ++ [("EXPLAIN " +:+ q1, database)]))
  /\ (forall v1 v2,
        qual !! "most filtering" = Some v1 ->
        qual !! "least filtering" = Some v2 ->
        qual !! "most executed" = None ->
        let q1 := substituted query (Vals.constants v1) in
        let q2 := substituted q1 (Vals.constants v2) in
        get_plans self query database qual log
        = (Raise KeyError,
           log ++ [("EXPLAIN " +:+ q1, database);
                   ("EXPLAIN " +:+ q2, database)])).
Proof.
  unfold get_plans, keys. split; [|split].
  - intros H. cbn [get_plans_loop]. unfold getitem. rewrite H. reflexivity.
  - intros v1 H1 H2. cbv zeta.
    rewrite (get_plans_loop_turn _ _ _ _ _ _ _ _ _ H1).
    cbn [get_plans_loop]. unfold getitem. rewrite H2. reflexivity.
  - intros v1 v2 H1 H2 H3. cbv zeta.
    rewrite (get_plans_loop_turn _ _ _ _ _ _ _ _ _ H1).
    rewrite (get_plans_loop_turn _ _ _ _ _ _ _ _ _ H2).
    cbn [get_plans_loop]. unfold getitem. rewrite H3.
    unfold mbind, M_bind, lift. rewrite <- !app_assoc. reflexivity.
Qed.

Lemma get_plans_missing_key_witness :
  get_plans answering_handler "SELECT * FROM t WHERE a = ?" "bench" ∅ []
  = (Raise KeyError, [])
  /\ get_plans answering_handler "SELECT * FROM t WHERE a = ?" "bench"
       {["most filtering" := vals_of ["1"]]} []
     = (Raise KeyError, [("EXPLAIN SELECT * FROM t WHERE a = 1", "bench")]).
Proof.
  split.
  - apply (proj1 (get_plans_missing_key answering_handler
                    "SELECT * FROM t WHERE a = ?" "bench" ∅ [])).
    reflexivity.
  - apply (proj1 (proj2 (get_plans_missing_key answering_handler
                           "SELECT * FROM t WHERE a = ?" "bench"
                           {["most filtering" := vals_of ["1"]]} []))
             (vals_of ["1"])); reflexivity.
Defined.

End PlansFacts.

(** ** get_hypoplans *)

Section EvaluatorFacts.
Import Hypo Evaluator EvaluatorSpec.

Local Open Scope nat_scope.

Lemma append_assoc (a b c : string) : (a +:+ b) +:+ c = a +:+ b +:+ c.
Proof.
  induction a as [|x a IH]; [reflexivity|].
  change (String x ((a +:+ b) +:+ c) = String x (a +:+ b +:+ c)).
  f_equal. exact IH.
Qed.

Lemma append_nil_r (a : string) : a +:+ "" = a.
Proof.
  induction a as [|x a IH]; [reflexivity|].
  change (String x (a +:+ "") = String x a). f_equal. exact IH.
Qed.

Lemma dot_not_digit (c : ascii) : is_dot c = true -> is_digit c = false.
Proof.
  unfold is_dot. intros ->%Ascii.eqb_eq. reflexivity.
Qed.

(** *** The greedy run of digits *)

Lemma span_digits_split (s : string) :
  s = (span_digits s).1 +:+ (span_digits s).2
  /\ all_digits (span_digits s).1 = true
  /\ no_digit_ahead (span_digits s).2.
Proof.
  induction s as [|c s (IH1 & IH2 & IH3)]; simpl.
  - repeat split.
  - destruct (is_digit c) eqn:Hc.
    + destruct (span_digits s) as [d rest]. simpl in *.
      rewrite Hc, IH2.
      split; [subst s; reflexivity | split; [reflexivity | exact IH3]].
    + simpl. rewrite Hc. repeat split.
Qed.

Lemma span_digits_app (d rest : string) :
  all_digits d = true ->
  span_digits (d +:+ rest)
  = (d +:+ (span_digits rest).1, (span_digits rest).2).
Proof.
  induction d as [|c d IH].
  - intros _. change ("" +:+ rest) with rest.
    destruct (span_digits rest); reflexivity.
  - intros [Hc Hd]%andb_prop.
    change (span_digits (String c (d +:+ rest))
            = (String c (d +:+ (span_digits rest).1), (span_digits rest).2)).
    cbn [span_digits]. rewrite Hc, (IH Hd). reflexivity.
Qed.

Lemma all_digits_app (a b : string) :
  all_digits (a +:+ b) = all_digits a && all_digits b.
Proof.
  induction a as [|c a IH]; simpl; [reflexivity|].
  rewrite IH, andb_assoc. reflexivity.
Qed.

(** *** The pattern at one position *)

Lemma match_cost_sound (s c : string) :
  match_cost s = Some c ->
  exists d1 d2 post,
    s = c +:+ post /\ c = d1 +:+ "." +:+ d2
    /\ digits d1 /\ digits d2 /\ no_digit_ahead post.
Proof.
  unfold match_cost.
  destruct (span_digits_split s) as (Hs & Hd1 & _).
  destruct (span_digits s) as [d1 rest]. simpl in *.
  destruct d1 as [|c1 d1]; [discriminate|].
  destruct rest as [|dot rest]; [discriminate|].
  destruct (is_dot dot) eqn:Hdot; [|discriminate].
  apply Ascii.eqb_eq in Hdot. subst dot.
  destruct (span_digits_split rest) as (Hr & Hd2 & Hpost).
  destruct (span_digits rest) as [d2 post]. simpl in *.
  destruct d2 as [|c2 d2]; [discriminate|].
  intros [= <-]. exists (String c1 d1), (String c2 d2), post.
  split.
  - rewrite Hs, Hr, !append_assoc. reflexivity.
  - repeat split; try assumption; discriminate.
Qed.

Lemma match_cost_complete (d1 d2 post : string) :
  digits d1 -> digits d2 ->
  exists c, match_cost (d1 +:+ "." +:+ d2 +:+ post) = Some c.
Proof.
  intros [Hd1 Hn1] [Hd2 Hn2]. unfold match_cost.
  rewrite (span_digits_app d1 _ Hd1).
  change (span_digits ("." +:+ d2 +:+ post))
    with (EmptyString, String "."%char (d2 +:+ post)).
  cbn [fst snd]. rewrite append_nil_r.
  destruct d1 as [|c1 d1]; [contradiction|].
  change (is_dot ".") with true. cbn iota.
  rewrite (span_digits_app d2 _ Hd2).
  destruct d2 as [|c2 d2]; [contradiction|].
  eexists. reflexivity.
Qed.

Lemma match_cost_dot (c : ascii) (s : string) :
  is_dot c = true -> match_cost (String c s) = None.
Proof.
  intros Hc. unfold match_cost. simpl.
  rewrite (dot_not_digit c Hc). reflexivity.
Qed.

(** *** The search from the left *)

Lemma dots_after_app (k : nat) (a b : string) :
  dots_after k (a +:+ b) = dots_after (dots_after k a) b.
Proof.
  revert k. induction a as [|c a IH]; intros k; simpl; [reflexivity|].
  apply IH.
Qed.

Lemma dots_after_two (pre : string) :
  2 <= dots_after 0 pre -> exists pre', pre = pre' +:+ "..".
Proof.
  assert (H : forall pre k, 2 <= dots_after k pre ->
            (exists pre', pre = pre' +:+ "..")
            \/ (pre = "." /\ 1 <= k) \/ (pre = "" /\ 2 <= k)).
  { clear pre. induction pre as [|c pre IH]; intros k Hk; simpl in Hk.
    - right. right. auto.
    - apply IH in Hk as [[pre' ->]|[[-> Hk]|[-> Hk]]].
      + left. exists (String c pre'). reflexivity.
      + destruct (is_dot c) eqn:Hc; cbn iota in Hk; [|lia].
        apply Ascii.eqb_eq in Hc. subst c. left. exists "". reflexivity.
      + destruct (is_dot c) eqn:Hc; cbn iota in Hk; [|lia].
        apply Ascii.eqb_eq in Hc. subst c. right. left.
        split; [reflexivity|].
        destruct k as [|k]; [simpl in Hk; lia | lia]. }
  intros Hk. destruct (H pre 0 Hk) as [Hpre|[[_ Hk']|[_ Hk']]];
    [exact Hpre | lia | lia].
Qed.

Lemma search_cost_from_sound (s : string) : forall pre c,
  search_cost_from (dots_after 0 pre) s = Some c ->
  exists pre' post d1 d2,
    pre +:+ s = pre' +:+ ".." +:+ c +:+ post
    /\ c = d1 +:+ "." +:+ d2
    /\ digits d1 /\ digits d2 /\ no_digit_ahead post.
Proof.
  induction s as [|ch s IH]; intros pre c; cbn [search_cost_from];
    [discriminate|].
  assert (Hnext : search_cost_from
                    (if is_dot ch then Nat.min 2 (S (dots_after 0 pre))
                     else 0) s = Some c ->
                  exists pre' post d1 d2,
                    pre +:+ String ch s = pre' +:+ ".." +:+ c +:+ post
                    /\ c = d1 +:+ "." +:+ d2
                    /\ digits d1 /\ digits d2 /\ no_digit_ahead post).
  { intros H. specialize (IH (pre +:+ String ch "") c).
    rewrite dots_after_app in IH. cbn [dots_after] in IH.
    destruct (IH H) as (pre' & post & d1 & d2 & Heq & Hrest).
    exists pre', post, d1, d2. split; [|exact Hrest].
    rewrite <- Heq, append_assoc. reflexivity. }
  destruct (2 <=? dots_after 0 pre) eqn:Hdots; [|exact Hnext].
  destruct (match_cost (String ch s)) as [m|] eqn:Hm; [|exact Hnext].
  intros [= <-]. apply Nat.leb_le, dots_after_two in Hdots as [pre' ->].
  apply match_cost_sound in Hm as (d1 & d2 & post & Hs & Hc & H1 & H2 & H3).
  exists pre', post, d1, d2. rewrite Hs, !append_assoc.
  split; [reflexivity|]. split; [exact Hc|]. auto.
Qed.

Lemma search_cost_from_dot (k : nat) (s : string) :
  search_cost_from k (String "."%char s)
  = search_cost_from (Nat.min 2 (S k)) s.
Proof.
  cbn [search_cost_from]. rewrite match_cost_dot by reflexivity.
  destruct (2 <=? k); reflexivity.
Qed.

Lemma search_cost_from_complete (pre d1 d2 post : string) : forall k,
  digits d1 -> digits d2 ->
  exists c,
    search_cost_from k (pre +:+ ".." +:+ d1 +:+ "." +:+ d2 +:+ post) = Some c.
Proof.
  intros k H1 H2. revert k. induction pre as [|ch pre IH]; intros k.
  - destruct (match_cost_complete d1 d2 post H1 H2) as [c Hc].
    exists c.
    change ("" +:+ ".." +:+ d1 +:+ "." +:+ d2 +:+ post)
      with (String "."%char (String "."%char (d1 +:+ "." +:+ d2 +:+ post))).
    rewrite !search_cost_from_dot.
    replace (Nat.min 2 (S (Nat.min 2 (S k)))) with 2 by lia.
    destruct H1 as [_ Hn1]. destruct d1 as [|c1 d1]; [contradiction|].
    change (String c1 d1 +:+ "." +:+ d2 +:+ post)
      with (String c1 (d1 +:+ "." +:+ d2 +:+ post)) in *.
    cbn [search_cost_from]. change (2 <=? 2) with true. cbn iota.
    rewrite Hc. reflexivity.
  - change (String ch pre +:+ ".." +:+ d1 +:+ "." +:+ d2 +:+ post)
      with (String ch (pre +:+ ".." +:+ d1 +:+ "." +:+ d2 +:+ post)).
    cbn [search_cost_from].
    destruct (if 2 <=? k then match_cost (String ch _) else None) as [m|];
      [eexists; reflexivity | apply IH].
Qed.

Lemma has_cost_found (plan : string) :
  has_cost plan -> exists c, search_cost plan = Some c.
Proof.
  intros (pre & d1 & d2 & post & -> & H1 & H2).
  apply (search_cost_from_complete pre d1 d2 post 0 H1 H2).
Qed.

Lemma found_has_cost (plan c : string) :
  search_cost plan = Some c -> has_cost plan.
Proof.
  intros Hc.
  destruct (search_cost_from_sound plan "" c Hc)
    as (pre & post & d1 & d2 & Heq & -> & H1 & H2 & _).
  exists pre, d1, d2, post. change ("" +:+ plan) with plan in Heq.
  rewrite Heq, !append_assoc. auto.
Qed.

(** X5: in a plan that is ASCII text, the cost read is a text of
    digits, a dot and digits that stands in the plan right after two
    dots and is not followed by a further digit; a cost is found in
    every plan text that holds such a place, and only there, so [m] is
    [None] exactly for the plans without one. *)
Theorem search_cost_finds_cost (plan : string) :
  ascii_text plan = true ->
  (forall c, search_cost plan = Some c ->
     exists pre post d1 d2,
       plan = pre +:+ ".." +:+ c +:+ post
       /\ c = d1 +:+ "." +:+ d2
       /\ digits d1 /\ digits d2 /\ no_digit_ahead post)
  /\ (search_cost plan = None <-> ~ has_cost plan).
Proof.
  intros _. split.
  - intros c Hc. apply (search_cost_from_sound plan "" c Hc).
  - split.
    + intros Hnone (pre & d1 & d2 & post & -> & H1 & H2).
      destruct (search_cost_from_complete pre d1 d2 post 0 H1 H2) as [c Hc].
      unfold search_cost in Hnone. congruence.
    + intros Hno. destruct (search_cost plan) as [c|] eqn:Hc; [|reflexivity].
      exfalso. apply Hno.
      destruct (search_cost_from_sound plan "" c Hc)
        as (pre & post & d1 & d2 & Heq & -> & H1 & H2 & _).
      exists pre, d1, d2, post. change ("" +:+ plan) with plan in Heq.
      rewrite Heq, !append_assoc. auto.
Qed.

Lemma search_cost_finds_cost_witness :
  (exists pre post d1 d2,
     "Seq Scan on t  (cost=0.00..35.50 rows=10 width=4)"
     = pre +:+ ".." +:+ "35.50" +:+ post
     /\ "35.50" = d1 +:+ "." +:+ d2
     /\ digits d1 /\ digits d2 /\ no_digit_ahead post)
  /\ ~ has_cost "Limit  (rows=1..2 width=4)".
Proof.
  split.
  - apply (proj1 (search_cost_finds_cost
                    "Seq Scan on t  (cost=0.00..35.50 rows=10 width=4)"
                    eq_refl)
             "35.50").
    vm_compute. reflexivity.
  - apply (proj1 (proj2 (search_cost_finds_cost
                           "Limit  (rows=1..2 width=4)" eq_refl))).
    vm_compute. reflexivity.
Defined.

(** *** [in] on strings and the indexes used *)

Lemma prefix_occurs (needle : string) : forall hay,
  String.prefix needle hay = true <-> exists post, hay = needle +:+ post.
Proof.
  induction needle as [|a needle IH]; intros hay.
  - split; [intros _; exists hay; reflexivity|].
    intros _. destruct hay; reflexivity.
  - destruct hay as [|b hay]; simpl.
    + split; [discriminate | intros [post H]; discriminate H].
    + destruct (ascii_dec a b) as [->|Hne].
      * rewrite IH. split; intros [post H]; exists post.
        -- rewrite H. reflexivity.
        -- injection H as H. exact H.
      * split; [discriminate|]. intros [post H]. injection H as H _.
        exfalso. auto.
Qed.

Lemma contains_occurs (needle hay : string) :
  contains needle hay = true <-> occurs_in needle hay.
Proof.
  unfold occurs_in. induction hay as [|b hay IH]; cbn [contains].
  - rewrite orb_false_r, prefix_occurs. split.
    + intros [post H]. exists "", post. exact H.
    + intros (pre & post & H). destruct pre; [exists post; exact H|].
      discriminate H.
  - rewrite orb_true_iff, prefix_occurs, IH. split.
    + intros [[post H]|(pre & post & H)].
      * exists "", post. exact H.
      * exists (String b pre), post. rewrite H. reflexivity.
    + intros (pre & post & H). destruct pre as [|c pre].
      * left. exists post. exact H.
      * right. injection H as _ H. exists pre, post. exact H.
Qed.

(** X6: the indexes recorded as used are taken from the indexes given,
    in their order; an index is among them exactly when it has a name
    and the name occurs somewhere in the text of the hypothetical
    plan.  An index without a name is never recorded. *)
Theorem used_indexes_named_in_plan
    (indexes : list HypoIndex.t) (hypoplan : string) :
  used_indexes indexes hypoplan `sublist_of` indexes
  /\ forall ind,
       ind ∈ used_indexes indexes hypoplan
       <-> ind ∈ indexes
           /\ exists name, HypoIndex.name ind = Some name
                           /\ occurs_in name hypoplan.
Proof.
  induction indexes as [|i indexes [IHs IHm]]; cbn [used_indexes].
  - split; [constructor|].
    intros ind. split; [intros H; inversion H | intros [H _]; inversion H].
  - destruct (HypoIndex.name i) as [name|] eqn:Hname.
    + destruct (contains name hypoplan) eqn:Hc.
      * split; [apply sublist_skip, IHs|].
        intros ind. rewrite !elem_of_cons, IHm. split.
        -- intros [->|[Hin Hex]]; [|auto].
           split; [auto|]. exists name. split; [exact Hname|].
           apply contains_occurs, Hc.
        -- intros [[->|Hin] Hex]; auto.
      * split; [apply sublist_cons, IHs|].
        intros ind. rewrite elem_of_cons, IHm. split.
        -- intros [Hin Hex]. auto.
        -- intros [[->|Hin] Hex]; [|auto].
           destruct Hex as (name' & Hn & Hocc).
           rewrite Hname in Hn. injection Hn as <-.
           apply contains_occurs in Hocc. congruence.
    + split; [apply sublist_cons, IHs|].
      intros ind. rewrite elem_of_cons, IHm. split.
      * intros [Hin Hex]. auto.
      * intros [[->|Hin] Hex]; [|auto].
        destruct Hex as (name' & Hn & _). congruence.
Qed.

Lemma used_indexes_named_in_plan_witness :
  named_index "btree" (Some "<41>btree_t_a")
  ∈ used_indexes
      [named_index "btree" None; named_index "btree" (Some "<41>btree_t_a")]
      "Index Scan using <41>btree_t_a on t"
  /\ named_index "btree" None
     ∉ used_indexes
         [named_index "btree" None;
          named_index "btree" (Some "<41>btree_t_a")]
         "Index Scan using <41>btree_t_a on t".
Proof.
  split.
  - apply (proj2 (used_indexes_named_in_plan
                    [named_index "btree" None;
                     named_index "btree" (Some "<41>btree_t_a")]
                    "Index Scan using <41>btree_t_a on t")).
    split; [apply list_elem_of_further, list_elem_of_here|].
    exists "<41>btree_t_a". split; [reflexivity|].
    exists "Index Scan using ", " on t". reflexivity.
  - intros H.
    apply (proj2 (used_indexes_named_in_plan
                    [named_index "btree" None;
                     named_index "btree" (Some "<41>btree_t_a")]
                    "Index Scan using <41>btree_t_a on t")) in H.
    destruct H as (_ & name & Hname & _). discriminate Hname.
Defined.

(** *** The statements sent and the outcome *)

Lemma explain_both_sent (conn : connection) (query : string)
    (log : list string) :
  exists n,
    n <= 4
    /\ (explain_both conn query log).2 = log ++ take n (protocol query)
    /\ (forall plans, (explain_both conn query log).1 = Ok plans -> n = 4)
    /\ (forall e, (explain_both conn query log).1 = Raise e ->
          0 < n
          /\ exists statement,
               protocol query !! (n - 1) = Some statement
               /\ answer conn (log ++ take (n - 1) (protocol query)) statement
                  = Raise e).
Proof.
  unfold explain_both, protocol, trans_execute, mbind, M_bind, mret, M_ret.
  destruct (answer conn log "SET hypopg.enabled = off") as [r1|e1] eqn:A1.
  2:{ exists 1. cbn [fst snd take]. split; [lia|]. split; [reflexivity|].
      split; [discriminate|]. intros e [= <-]. split; [lia|].
      eexists. split; [reflexivity|]. cbn [take Nat.sub].
      rewrite app_nil_r. exact A1. }
  destruct (answer conn (log ++ ["SET hypopg.enabled = off"])
              ("EXPLAIN " +:+ query)) as [r2|e2] eqn:A2.
  2:{ exists 2. cbn [fst snd take]. rewrite <- !app_assoc.
      split; [lia|]. split; [reflexivity|].
      split; [discriminate|]. intros e [= <-]. split; [lia|].
      eexists. split; [reflexivity|]. exact A2. }
  destruct (answer conn
              ((log ++ ["SET hypopg.enabled = off"])
                 ++ ["EXPLAIN " +:+ query])
              "SET hypopg.enabled = on") as [r3|e3] eqn:A3.
  2:{ exists 3. cbn [fst snd take]. rewrite <- !app_assoc.
      split; [lia|]. split; [reflexivity|].
      split; [discriminate|]. intros e [= <-]. split; [lia|].
      eexists. split; [reflexivity|]. cbn [take Nat.sub].
      rewrite <- !app_assoc in A3. exact A3. }
  destruct (answer conn
              (((log ++ ["SET hypopg.enabled = off"])
                  ++ ["EXPLAIN " +:+ query])
                 ++ ["SET hypopg.enabled = on"])
              ("EXPLAIN " +:+ query)) as [r4|e4] eqn:A4.
  2:{ exists 4. cbn [fst snd take]. rewrite <- !app_assoc.
      split; [lia|]. split; [reflexivity|].
      split; [discriminate|]. intros e [= <-]. split; [lia|].
      eexists. split; [reflexivity|]. cbn [take Nat.sub].
      rewrite <- !app_assoc in A4. exact A4. }
  exists 4. cbn [fst snd take]. rewrite <- !app_assoc.
  split; [lia|]. split; [reflexivity|].
  split; [reflexivity | discriminate].
Qed.

(** X7: once the four statements have been answered with plans that
    are ASCII text, [get_hypoplans] returns a HypoPlan exactly when
    both plan texts hold a cost, and then its costs are the texts
    found in the two plans, kept as texts, and its indexes the ones
    named in the hypothetical plan; when either plan holds no cost it
    raises AttributeError, after all four statements have been
    sent. *)
Theorem get_hypoplans_needs_costs
    (conn : connection) (query : string) (indexes : list HypoIndex.t)
    (log log' : list string) (base hypo : string) :
  explain_both conn query log = (Ok (base, hypo), log') ->
  ascii_text base = true ->
  ascii_text hypo = true ->
  log' = log ++ protocol query
  /\ (~ has_cost base \/ ~ has_cost hypo ->
      get_hypoplans conn query indexes log = (Raised AttributeError, log'))
  /\ (has_cost base -> has_cost hypo ->
      exists basecost hypocost,
        search_cost base = Some basecost
        /\ search_cost hypo = Some hypocost
        /\ get_hypoplans conn query indexes log
           = (Returned {| HypoPlan.baseplan := base;
                          HypoPlan.basecost := PStr basecost;
                          HypoPlan.hypoplan := hypo;
                          HypoPlan.hypocost := PStr hypocost;
                          HypoPlan.query := query;
                          HypoPlan.indexes := used_indexes indexes hypo |},
              log')).
Proof.
  intros Hboth _ _. unfold get_hypoplans. rewrite Hboth. split; [|split].
  - destruct (explain_both_sent conn query log) as (n & _ & Hlog & Hok & _).
    rewrite Hboth in Hlog, Hok. cbn [fst snd] in Hlog, Hok.
    rewrite (Hok _ eq_refl) in Hlog. exact Hlog.
  - intros Hno.
    destruct (search_cost base) as [bc|] eqn:Hb; [|reflexivity].
    destruct (search_cost hypo) as [hc|] eqn:Hh; [|reflexivity].
    exfalso. destruct Hno as [Hno|Hno]; apply Hno.
    + apply (found_has_cost base bc Hb).
    + apply (found_has_cost hypo hc Hh).
  - intros [bc Hb]%has_cost_found [hc Hh]%has_cost_found.
    exists bc, hc. rewrite Hb, Hh. auto.
Qed.

Lemma get_hypoplans_needs_costs_witness :
  get_hypoplans example_connection "SELECT * FROM t WHERE a = 1"
    [named_index "btree" (Some "<41>btree_t_a");
     named_index "btree" None;
     named_index "brin" (Some "<42>brin_t_a")] []
  = (Returned
       {| HypoPlan.baseplan :=
            "Seq Scan on t  (cost=0.00..35.50 rows=10 width=4)";
          HypoPlan.basecost := PStr "35.50";
          HypoPlan.hypoplan :=
            "Index Scan using <41>btree_t_a on t  (cost=0.05..8.07 rows=1 width=4)";
          HypoPlan.hypocost := PStr "8.07";
          HypoPlan.query := "SELECT * FROM t WHERE a = 1";
          HypoPlan.indexes := [named_index "btree" (Some "<41>btree_t_a")] |},
     protocol "SELECT * FROM t WHERE a = 1")
  /\ get_hypoplans costless_connection "SELECT 1" [] []
     = (Raised AttributeError, protocol "SELECT 1").
Proof.
  split.
  - destruct (get_hypoplans_needs_costs example_connection
                "SELECT * FROM t WHERE a = 1"
                [named_index "btree" (Some "<41>btree_t_a");
                 named_index "btree" None;
                 named_index "brin" (Some "<42>brin_t_a")] []
                (protocol "SELECT * FROM t WHERE a = 1")
                "Seq Scan on t  (cost=0.00..35.50 rows=10 width=4)"
                "Index Scan using <41>btree_t_a on t  (cost=0.05..8.07 rows=1 width=4)"
                eq_refl eq_refl eq_refl) as (_ & _ & Hret).
    destruct Hret as (bc & hc & Hb & Hh & Hret).
    + exists "Seq Scan on t  (cost=0.00", "35", "50", " rows=10 width=4)".
      repeat split; discriminate.
    + exists "Index Scan using <41>btree_t_a on t  (cost=0.05", "8", "07",
        " rows=1 width=4)".
      repeat split; discriminate.
    + vm_compute in Hb, Hh. injection Hb as <-. injection Hh as <-.
      exact Hret.
  - apply (get_hypoplans_needs_costs costless_connection "SELECT 1" [] []
             (protocol "SELECT 1") "Result" "Result" eq_refl eq_refl
             eq_refl).
    left. intros [c Hc]%has_cost_found. discriminate Hc.
Defined.

(** X8: the statements of an evaluation are sent in one order: the
    hypothetical indexes switched off, EXPLAIN, switched on, EXPLAIN.
    When a statement is refused its exception ends the function and
    no statement is sent after it; in every other case, a HypoPlan
    returned or a cost missing, exactly the four statements have been
    sent, the last setting leaving the hypothetical indexes on. *)
Theorem get_hypoplans_statements
    (conn : connection) (query : string) (indexes : list HypoIndex.t)
    (log : list string) :
  exists n,
    n <= 4
    /\ (get_hypoplans conn query indexes log).2
       = log ++ take n (protocol query)
    /\ (forall e,
          (get_hypoplans conn query indexes log).1 = Raised (Propagated e)
          -> 0 < n
             /\ exists statement,
                  protocol query !! (n - 1) = Some statement
                  /\ answer conn (log ++ take (n - 1) (protocol query))
                       statement = Raise e)
    /\ ((forall e,
           (get_hypoplans conn query indexes log).1
           <> Raised (Propagated e))
        -> n = 4).
Proof.
  destruct (explain_both_sent conn query log) as (n & Hn & Hlog & Hok & Herr).
  exists n. unfold get_hypoplans.
  destruct (explain_both conn query log) as [[[base hypo]|e] log'] eqn:Hboth;
    cbn [fst snd] in *.
  - split; [exact Hn|]. split; [exact Hlog|].
    split; [|intros _; apply (Hok _ eq_refl)].
    intros e He. exfalso.
    destruct (search_cost base); [|discriminate He].
    destruct (search_cost hypo); discriminate He.
  - split; [exact Hn|]. split; [exact Hlog|]. split.
    + intros e' [= <-]. apply Herr. reflexivity.
    + intros Hnot. exfalso. apply (Hnot e). reflexivity.
Qed.

Lemma get_hypoplans_statements_witness :
  exists n,
    n <= 4
    /\ (get_hypoplans refusing_connection "SELECT 1" [] []).2
       = take n (protocol "SELECT 1")
    /\ 0 < n.
Proof.
  destruct (get_hypoplans_statements refusing_connection "SELECT 1" [] [])
    as (n & Hn & Hlog & Herr & _).
  exists n. split; [exact Hn|]. split; [exact Hlog|].
  apply (Herr ValueError). reflexivity.
Defined.

End EvaluatorFacts.

(** ** From the plans to the gain *)

Section CostFacts.
Import Hypo Evaluator EvaluatorSpec.

(** What a digit is not. *)
Lemma decimal_char (c : ascii) :
  is_decimal c = true ->
  is_space c = false
  /\ Ascii.eqb c "_" = false
  /\ lower c = c
  /\ Ascii.eqb c "i" = false
  /\ Ascii.eqb c "n" = false
  /\ take_sign [c] = (false, [c]).
Proof.
  destruct c as [b0 b1 b2 b3 b4 b5 b6 b7].
  destruct b0, b1, b2, b3, b4, b5, b6, b7; intros H;
    try discriminate H; repeat split; reflexivity.
Qed.

Lemma take_sign_decimal (c : ascii) (l : list ascii) :
  is_decimal c = true -> take_sign (c :: l) = (false, c :: l).
Proof.
  destruct c as [b0 b1 b2 b3 b4 b5 b6 b7].
  destruct b0, b1, b2, b3, b4, b5, b6, b7; intros H;
    try discriminate H; reflexivity.
Qed.

Lemma cost_char_plain (c : ascii) :
  cost_char c -> is_space c = false /\ Ascii.eqb c "_" = false.
Proof.
  intros [H| ->]; [|split; reflexivity].
  destruct (decimal_char c H) as (Hs & Hu & _). split; assumption.
Qed.

Lemma drop_spaces_plain (l : list ascii) :
  Forall cost_char l -> drop_spaces l = l.
Proof.
  intros [|c l' Hc _]; [reflexivity|]. cbn [drop_spaces].
  rewrite (proj1 (cost_char_plain c Hc)). reflexivity.
Qed.

Lemma strip_plain (l : list ascii) : Forall cost_char l -> strip l = l.
Proof.
  intros H. unfold strip. rewrite (drop_spaces_plain l H).
  rewrite drop_spaces_plain by (apply Forall_rev; exact H).
  apply rev_involutive.
Qed.

Lemma without_underscores_plain (l : list ascii) : forall prev,
  Ascii.eqb prev "_" = false ->
  Forall cost_char l ->
  without_underscores prev l = Some l.
Proof.
  induction l as [|c l IH]; intros prev Hprev Hall; cbn [without_underscores].
  - rewrite Hprev. reflexivity.
  - apply Forall_cons in Hall as [Hc Hall].
    destruct (cost_char_plain c Hc) as [_ Hu].
    rewrite Hu, Hprev. cbn [andb]. rewrite (IH c Hu Hall). reflexivity.
Qed.

Lemma span_decimal_all (l rest : list ascii) :
  Forall (fun c => is_decimal c = true) l ->
  match rest with
  | [] => True
  | c :: _ => is_decimal c = false
  end ->
  span_decimal (l ++ rest) = (l, rest).
Proof.
  intros Hall Hrest. induction Hall as [|c l Hc _ IH].
  - destruct rest as [|c rest]; [reflexivity|].
    cbn [app span_decimal]. rewrite Hrest. reflexivity.
  - cbn [app span_decimal]. rewrite Hc, IH. reflexivity.
Qed.

Lemma chars_app (a b : string) :
  list_ascii_of_string (a +:+ b)
  = list_ascii_of_string a ++ list_ascii_of_string b.
Proof.
  induction a as [|c a IH]; [reflexivity|].
  change (c :: list_ascii_of_string (a +:+ b)
          = c :: (list_ascii_of_string a ++ list_ascii_of_string b)).
  f_equal. exact IH.
Qed.

Lemma digits_chars (d : string) :
  digits d ->
  Forall (fun c => is_decimal c = true) (list_ascii_of_string d)
  /\ list_ascii_of_string d <> [].
Proof.
  intros [Hall Hne]. split; [|destruct d; [contradiction | discriminate]].
  clear Hne. induction d as [|c d IH]; [constructor|].
  cbn [all_digits] in Hall. apply andb_true_iff in Hall as [Hc Hall].
  constructor; [exact Hc | exact (IH Hall)].
Qed.

(** [float()] reads every text that the search for a cost returns: it
    is the decimal the text shows. *)
Lemma float_of_str_cost (d1 d2 : string) :
  digits d1 -> digits d2 ->
  float_of_str (d1 +:+ "." +:+ d2)
  = Ok (decimal_float false
          (digits_value (list_ascii_of_string d1 ++ list_ascii_of_string d2))
          (0 - Z.of_nat (length (list_ascii_of_string d2)))).
Proof.
  intros [H1 N1]%digits_chars [H2 N2]%digits_chars. unfold float_of_str.
  rewrite !chars_app. change (list_ascii_of_string ".") with ["."%char].
  set (l1 := list_ascii_of_string d1) in *.
  set (l2 := list_ascii_of_string d2) in *.
  assert (Hall : Forall cost_char (l1 ++ ["."%char] ++ l2)).
  { apply Forall_app. split; [|apply Forall_app; split].
    - eapply Forall_impl; [exact H1|]. intros c Hc. left. exact Hc.
    - constructor; [right; reflexivity | constructor].
    - eapply Forall_impl; [exact H2|]. intros c Hc. left. exact Hc. }
  rewrite (strip_plain _ Hall).
  rewrite (without_underscores_plain _ "000"%char eq_refl Hall).
  destruct l1 as [|c1 l1']; [contradiction|].
  apply Forall_cons in H1 as [Hc1 H1'].
  change ((c1 :: l1') ++ ["."%char] ++ l2)
    with (c1 :: (l1' ++ "."%char :: l2)).
  rewrite (take_sign_decimal c1 _ Hc1).
  destruct (decimal_char c1 Hc1) as (_ & _ & Hlow & Hi & Hn & _).
  cbn [map string_of_list_ascii String.eqb]. rewrite Hlow, Hi, Hn.
  cbn [andb orb].
  change (c1 :: (l1' ++ "."%char :: l2))
    with ((c1 :: l1') ++ "."%char :: l2).
  rewrite (span_decimal_all (c1 :: l1') ("."%char :: l2));
    [|constructor; assumption | reflexivity].
  rewrite <- (app_nil_r l2) at 1.
  rewrite (span_decimal_all l2 [] H2 I).
  cbn [app exponent_value]. reflexivity.
Qed.

(** X17: the costs that [get_hypoplans] stores in a HypoPlan, found
    in plans that are ASCII text, are texts that [float()] reads, so
    [gain_percent] of every HypoPlan it returns is the rounded gain or,
    when the base cost reads as zero (a base plan of cost 0.00),
    ZeroDivisionError; it never raises ValueError or TypeError. *)
Theorem get_hypoplans_gain_percent
    (conn : connection) (query : string) (indexes : list HypoIndex.t)
    (log log' log'' : list string) (base hypo : string) (p : HypoPlan.t) :
  explain_both conn query log = (Ok (base, hypo), log') ->
  ascii_text base = true ->
  ascii_text hypo = true ->
  get_hypoplans conn query indexes log = (Returned p, log'') ->
  exists h b,
    py_float (HypoPlan.hypocost p) = Ok h
    /\ py_float (HypoPlan.basecost p) = Ok b
    /\ (PrimFloat.eqb b 0%float = false ->
        HypoPlan.gain_percent p = Ok (py_round2 (100 - h * 100 / b)%float))
    /\ (PrimFloat.eqb b 0%float = true ->
        HypoPlan.gain_percent p = Raise ZeroDivisionError).
Proof.
  intros Hboth _ _. unfold get_hypoplans. rewrite Hboth.
  destruct (search_cost base) as [bc|] eqn:Hb; [|discriminate].
  destruct (search_cost hypo) as [hc|] eqn:Hh; [|discriminate].
  intros [= <- _].
  destruct (search_cost_from_sound base "" bc Hb)
    as (_ & _ & b1 & b2 & _ & -> & Hb1 & Hb2 & _).
  destruct (search_cost_from_sound hypo "" hc Hh)
    as (_ & _ & h1 & h2 & _ & -> & Hh1 & Hh2 & _).
  eexists _, _.
  split; [exact (float_of_str_cost h1 h2 Hh1 Hh2)|].
  split; [exact (float_of_str_cost b1 b2 Hb1 Hb2)|].
  unfold HypoPlan.gain_percent.
  cbn [HypoPlan.__init__ HypoPlan.hypocost HypoPlan.basecost py_float].
  rewrite (float_of_str_cost h1 h2 Hh1 Hh2).
  rewrite (float_of_str_cost b1 b2 Hb1 Hb2).
  split; intros Hz; simpl; unfold float_truediv; rewrite Hz; reflexivity.
Qed.

Lemma get_hypoplans_gain_percent_witness :
  exists p,
    get_hypoplans example_connection "SELECT * FROM t WHERE a = 1" [] []
    = (Returned p, protocol "SELECT * FROM t WHERE a = 1")
    /\ HypoPlan.gain_percent p = Ok (0x1.35147ae147ae1p+6)%float
    /\ float_repr (0x1.35147ae147ae1p+6)%float = "77.27".
Proof.
  destruct (get_hypoplans example_connection "SELECT * FROM t WHERE a = 1"
              [] []) as [[p|r] log''] eqn:Hrun;
    [|vm_compute in Hrun; discriminate Hrun].
  exists p.
  destruct (get_hypoplans_gain_percent example_connection
              "SELECT * FROM t WHERE a = 1" [] []
              (protocol "SELECT * FROM t WHERE a = 1") log''
              "Seq Scan on t  (cost=0.00..35.50 rows=10 width=4)"
              "Index Scan using <41>btree_t_a on t  (cost=0.05..8.07 rows=1 width=4)"
              p eq_refl eq_refl eq_refl Hrun)
    as (h & b & Hh & Hb & Hgain & _).
  vm_compute in Hrun. injection Hrun as <- <-.
  split; [reflexivity|]. split; [|vm_compute; reflexivity].
  vm_compute in Hb. injection Hb as <-.
  vm_compute in Hh. injection Hh as <-.
  rewrite (Hgain eq_refl). vm_compute. reflexivity.
Defined.

(** A base plan of cost 0.00 makes the gain a division by zero. *)
Lemma get_hypoplans_zero_cost :
  exists p,
    get_hypoplans free_connection "SELECT 1 WHERE false" [] []
    = (Returned p, protocol "SELECT 1 WHERE false")
    /\ HypoPlan.gain_percent p = Raise ZeroDivisionError.
Proof.
  eexists. split; [vm_compute; reflexivity|]. vm_compute. reflexivity.
Qed.

End CostFacts.

(** ** resolve_quals, beyond one row at a time *)

Section QualsMoreFacts.
Import Quals QualsSpec QualsMore.

Local Open Scope nat_scope.

Lemma resolve_part_one_relation operators attnames newqual v cq :
  on_one_relation newqual ->
  resolve_part operators attnames newqual v = Ok cq ->
  on_one_relation cq.
Proof.
  unfold resolve_part, on_one_relation. intros Hinv H.
  destruct (subscript attnames (attname_key v)) as [att|]; simpl in H;
    [|discriminate].
  destruct newqual as [qid rel nsp nbf fr cnt live parts]. simpl in *.
  destruct rel as [rel|]; simpl in H.
  - destruct (decide (rel <> relname att)) as [|Heq]; simpl in H;
      [discriminate|].
    destruct (subscript operators (opno v)) as [op|]; simpl in H;
      [|discriminate].
    injection H as <-. simpl.
    destruct parts as [|q rest]; [destruct Hinv; discriminate|].
    destruct Hinv as (Hrel & Hnsp & Hall). simpl.
    split; [exact Hrel|]. split; [exact Hnsp|].
    apply Forall_app. split; [exact Hall|].
    constructor; [|constructor]. simpl.
    injection Hrel as Hrel. rewrite <- Hrel.
    destruct (decide (rel = relname att)) as [E|E];
      [symmetry; exact E | exfalso; auto].
  - destruct (subscript operators (opno v)) as [op|]; simpl in H;
      [|discriminate].
    injection H as <-. simpl.
    destruct parts as [|q rest]; [|destruct Hinv; discriminate].
    simpl. repeat split. constructor.
Qed.

Lemma resolve_parts_one_relation operators attnames values :
  forall newqual cq,
    on_one_relation newqual ->
    resolve_parts operators attnames newqual values = Ok cq ->
    on_one_relation cq.
Proof.
  induction values as [|v values IH]; intros newqual cq Hinv H; simpl in H.
  - injection H as <-. exact Hinv.
  - destruct (resolve_part operators attnames newqual v) as [nq|] eqn:Hv;
      simpl in H; [|discriminate].
    apply (IH nq cq); [|exact H].
    apply (resolve_part_one_relation _ _ _ _ _ Hinv Hv).
Qed.

Lemma resolve_row_one_relation operators attnames r cq :
  resolve_row operators attnames r = Ok cq -> on_one_relation cq.
Proof.
  unfold resolve_row. intros H.
  destruct (comprehension (py_iter (quals r))) as [values|]; simpl in H;
    [|discriminate].
  eapply resolve_parts_one_relation; [|exact H].
  split; reflexivity.
Qed.

(** What holds of the result of each row holds of the list built. *)
Lemma resolve_rows_Forall operators attnames (P : ComposedQual.t -> Prop) :
  (forall r cq, resolve_row operators attnames r = Ok cq -> P cq) ->
  forall quallist acc out,
    resolve_rows operators attnames acc quallist = Ok out ->
    Forall P acc -> Forall P out.
Proof.
  intros HP. induction quallist as [|r quallist IH]; intros acc out H Hacc;
    simpl in H.
  - injection H as <-. exact Hacc.
  - destruct (resolve_row operators attnames r) as [cq|] eqn:Hr;
      simpl in H; [|discriminate].
    apply (IH _ _ H). apply Forall_app. split; [exact Hacc|].
    constructor; [apply (HP r), Hr | constructor].
Qed.

(** X9: in every list that [resolve_quals] returns, the parts of a
    composed qual are all on a relation of one name, the name the
    composed qual carries, taken with the namespace from its first
    part; a composed qual without parts carries no relation. *)
Theorem resolve_quals_one_relation
    (db : database) (quallist : iterable) (log log' : connection)
    (out : list ComposedQual.t) :
  resolve_quals db quallist log = (Ok out, log') ->
  Forall on_one_relation out.
Proof.
  intros H.
  destruct (lookup_catalogs_returns db (rows_of quallist) log)
    as (operators & attnames & log1 & Hl).
  rewrite (resolve_quals_unfold _ _ _ _ _ _ Hl) in H.
  injection H as H _.
  apply (resolve_rows_Forall operators attnames on_one_relation
           (resolve_row_one_relation operators attnames) _ _ _ H).
  constructor.
Qed.

Lemma resolve_quals_one_relation_witness :
  exists out,
    (resolve_quals known_db
       (Sequence [row_with (QList [table_ref "96" 1; sentinel_ref "96";
                                   table_ref "96" 1])]) []).1 = Ok out
    /\ Forall on_one_relation out /\ length out = 1.
Proof.
  destruct (resolve_quals known_db
              (Sequence [row_with (QList [table_ref "96" 1; sentinel_ref "96";
                                          table_ref "96" 1])]) [])
    as [[out|e] log'] eqn:H; [|vm_compute in H; discriminate H].
  exists out. split; [reflexivity|].
  split; [apply (resolve_quals_one_relation _ _ _ _ _ H)|].
  vm_compute in H. injection H as <- _. reflexivity.
Defined.

(** *** References on the relation "0" *)

Lemma comprehension_sentinel (l : list qualref) :
  Forall (fun v => relid v = "0") l ->
  comprehension (py_iter (QList l)) = Ok [].
Proof.
  intros Hall. rewrite comprehension_list. f_equal.
  induction Hall as [|v l Hv _ IH]; [reflexivity|].
  rewrite filter_cons, IH.
  destruct (decide (relid v <> "0")); [contradiction | reflexivity].
Qed.

Lemma resolve_rows_sentinel operators attnames quallist : forall acc,
  Forall sentinel_only quallist ->
  resolve_rows operators attnames acc quallist = Ok (acc ++ (bare <$> quallist)).
Proof.
  induction quallist as [|r quallist IH]; intros acc Hall; simpl.
  - rewrite app_nil_r. reflexivity.
  - apply Forall_cons in Hall as [(l & Hq & Hl) Hall].
    unfold resolve_row. rewrite Hq, (comprehension_sentinel l Hl). simpl.
    rewrite (IH _ Hall), <- app_assoc. reflexivity.
Qed.

(** X10: references on the relation "0" are looked up and then left
    out.  When every reference of every row is on the relation "0"
    (rows without references included), [resolve_quals] returns for
    every database, also one that answers nothing: over a sequence
    one composed qual per row with the row's counts, no part and no
    relation, over an iterator the empty list; in both cases the ids
    of those references have been sent to the two catalogs. *)
Theorem resolve_quals_sentinel_only
    (db : database) (quallist : iterable) (log : connection) :
  Forall sentinel_only (rows_of quallist) ->
  resolve_quals db quallist log
  = (Ok (bare <$> rows_again quallist), log ++ issued (rows_of quallist))
  /\ (all_refs (rows_of quallist) <> [] ->
      issued (rows_of quallist)
      = [RESOLVE_OPNAME (operator_ids (rows_of quallist));
         RESOLVE_ATTNAME (attribute_ids (rows_of quallist))]).
Proof.
  intros Hall. split.
  - rewrite (resolve_quals_unfold _ _ _ _ _ _
               (lookup_catalogs_issued db (rows_of quallist) log)).
    rewrite (resolve_rows_sentinel _ _ (rows_again quallist) []);
      [reflexivity|].
    destruct quallist as [rows|rows]; [exact Hall | constructor].
  - intros Hrefs. unfold issued.
    destruct (ids_empty (rows_of quallist)) as [Ho Ha].
    destruct (decide (operator_ids (rows_of quallist) = ∅)) as [E|_];
      [apply Ho in E; contradiction|].
    destruct (decide (attribute_ids (rows_of quallist) = ∅)) as [E|_];
      [apply Ha in E; contradiction|].
    reflexivity.
Qed.

Lemma resolve_quals_sentinel_only_witness :
  resolve_quals null_db
    (Sequence [row_with (QList [sentinel_ref "96"]); row_with (QList [])]) []
  = (Ok [bare (row_with (QList [sentinel_ref "96"]));
         bare (row_with (QList []))],
     [RESOLVE_OPNAME {["96"]}; RESOLVE_ATTNAME {[("0", 0%Z)]}])
  /\ resolve_quals null_db
       (Iterator [row_with (QList [sentinel_ref "96"]); row_with (QList [])])
       []
     = (Ok [], [RESOLVE_OPNAME {["96"]}; RESOLVE_ATTNAME {[("0", 0%Z)]}]).
Proof.
  split.
  - destruct (resolve_quals_sentinel_only null_db
                (Sequence [row_with (QList [sentinel_ref "96"]);
                           row_with (QList [])])
                []) as [Hrun Hsent].
    + repeat constructor; eexists; (split; [reflexivity|]);
        repeat constructor.
    + rewrite Hrun. simpl. simpl in Hsent.
      rewrite Hsent by discriminate. reflexivity.
  - destruct (resolve_quals_sentinel_only null_db
                (Iterator [row_with (QList [sentinel_ref "96"]);
                           row_with (QList [])])
                []) as [Hrun Hsent].
    + repeat constructor; eexists; (split; [reflexivity|]);
        repeat constructor.
    + rewrite Hrun. simpl. simpl in Hsent.
      rewrite Hsent by discriminate. reflexivity.
Defined.

(** *** References the catalogs do not know *)

Lemma ref_in_all_refs (quallist : list row) (r : row) (l : list qualref)
    (v : qualref) :
  r ∈ quallist -> quals r = QList l -> v ∈ l -> v ∈ all_refs quallist.
Proof.
  intros Hr Hq Hv. unfold all_refs. apply list_elem_of_bind.
  exists r. split; [|exact Hr]. rewrite Hq. exact Hv.
Qed.

Lemma ids_of_ref (quallist : list row) (v : qualref) :
  v ∈ all_refs quallist ->
  operator_ids quallist <> ∅ /\ attribute_ids quallist <> ∅.
Proof.
  intros Hv. destruct (ids_empty quallist) as [Ho Ha].
  split; intros E; [apply Ho in E | apply Ha in E];
    rewrite E in Hv; inversion Hv.
Qed.

(** X11: a reference that the second pass keeps needs its attribute
    and its operator in what the database answered.  When some row of
    a sequence has a reference on a relation other than "0" whose
    attribute, or whose operator, is not in the mapping answered (or
    the answer is NULL), [resolve_quals] returns no list at all,
    whatever the other rows hold.  Over an iterator the same rows
    raise nothing: the second pass has no row to look at and the
    empty list is returned. *)
Theorem resolve_quals_unknown_reference
    (db : database) (quallist : list row) (log : connection)
    (r : row) (l : list qualref) (v : qualref) :
  r ∈ quallist ->
  quals r = QList l ->
  v ∈ l ->
  relid v <> "0" ->
  (forall att,
     subscript (scalar_attname db (attribute_ids quallist)) (attname_key v)
     <> Ok att)
  \/ (forall op,
        subscript (scalar_opname db (operator_ids quallist)) (opno v)
        <> Ok op) ->
  (forall out, (resolve_quals db (Sequence quallist) log).1 <> Ok out)
  /\ (resolve_quals db (Iterator quallist) log).1 = Ok [].
Proof.
  intros Hr Hq Hv Hrel Hmiss. split.
  2:{ rewrite (resolve_quals_iterator _ _ _ _ _ _
                 (lookup_catalogs_issued db quallist log)).
      reflexivity. }
  intros out.
  rewrite (resolve_quals_unfold _ (Sequence quallist) _ _ _ _
             (lookup_catalogs_issued db quallist log)).
  cbn [fst rows_again]. intros Hok.
  destruct (ids_of_ref quallist v (ref_in_all_refs _ _ _ _ Hr Hq Hv))
    as [Hops Hatts].
  rewrite decide_False in Hok by exact Hops.
  rewrite decide_False in Hok by exact Hatts.
  apply resolve_rows_ok in Hok as (outs & _ & Hall).
  apply list_elem_of_lookup_1 in Hr as [i Hi].
  destruct (Forall2_lookup_l _ _ _ _ _ Hall Hi)
    as (cq & _ & _ & _ & _ & _ & l' & Hq' & Hparts).
  rewrite Hq in Hq'. injection Hq' as <-.
  assert (Hkept : v ∈ filter (fun v => relid v <> "0") l)
    by (apply list_elem_of_filter; auto).
  apply list_elem_of_lookup_1 in Hkept as [j Hj].
  destruct (Forall2_lookup_r _ _ _ _ _ Hparts Hj)
    as (q & _ & att & op & Hatt & Hop & _).
  destruct Hmiss as [Hmiss|Hmiss]; [apply (Hmiss att Hatt) | apply (Hmiss op Hop)].
Qed.

Lemma resolve_quals_unknown_reference_witness :
  (forall out,
     (resolve_quals known_db
        (Sequence [row_with (QList []); row_with (QList [table_ref "96" 2])])
        []).1
     <> Ok out)
  /\ (forall out,
        (resolve_quals null_db
           (Sequence [row_with (QList [table_ref "96" 1])]) []).1
        <> Ok out)
  /\ (resolve_quals null_db
        (Iterator [row_with (QList [table_ref "96" 1])]) []).1
     = Ok [].
Proof.
  split; [|split].
  - apply (resolve_quals_unknown_reference known_db
             [row_with (QList []); row_with (QList [table_ref "96" 2])] []
             (row_with (QList [table_ref "96" 2]))
             [table_ref "96" 2] (table_ref "96" 2)).
    + apply list_elem_of_further, list_elem_of_here.
    + reflexivity.
    + apply list_elem_of_here.
    + discriminate.
    + left. intros att H. vm_compute in H. discriminate H.
  - apply (resolve_quals_unknown_reference null_db
             [row_with (QList [table_ref "96" 1])] []
             (row_with (QList [table_ref "96" 1]))
             [table_ref "96" 1] (table_ref "96" 1)).
    + apply list_elem_of_here.
    + reflexivity.
    + apply list_elem_of_here.
    + discriminate.
    + right. intros op H. discriminate H.
  - apply (resolve_quals_unknown_reference null_db
             [row_with (QList [table_ref "96" 1])] []
             (row_with (QList [table_ref "96" 1]))
             [table_ref "96" 1] (table_ref "96" 1)).
    + apply list_elem_of_here.
    + reflexivity.
    + apply list_elem_of_here.
    + discriminate.
    + right. intros op H. discriminate H.
Defined.

(** *** The WHERE clause *)

Lemma concat_snoc (sep : string) (l : list string) (x : string) :
  String.concat sep (l ++ [x])
  = match l with
    | [] => x
    | _ :: _ => String.concat sep l +:+ sep +:+ x
    end.
Proof.
  induction l as [|a l IH]; [reflexivity|].
  change ((a :: l) ++ [x]) with (a :: (l ++ [x])).
  destruct l as [|b l]; [reflexivity|].
  change (String.concat sep (a :: (b :: l) ++ [x]))
    with (a +:+ sep +:+ String.concat sep ((b :: l) ++ [x])).
  rewrite IH.
  change (String.concat sep (a :: b :: l))
    with (a +:+ sep +:+ String.concat sep (b :: l)).
  rewrite !append_assoc. reflexivity.
Qed.

(** X12: the WHERE clause lists the parts in their order, joined by
    AND.  Appending a part to a composed qual that has parts adds
    " AND " and the part's text to its clause; appending to one
    without parts gives "WHERE " and the part's text, and the clause
    of a composed qual without parts is "WHERE " with nothing after
    it. *)
Theorem where_clause_append (cq : ComposedQual.t) (q : ResolvedQual.t) :
  (ComposedQual._quals cq = [] -> ComposedQual.where_clause cq = "WHERE ")
  /\ exists cq',
       ComposedQual.append cq (IsResolvedQual q) = Ok cq'
       /\ ComposedQual.where_clause cq' = where_clause_with cq q.
Proof.
  split.
  - intros H. unfold ComposedQual.where_clause, ComposedQual.__str__.
    rewrite H. reflexivity.
  - eexists. split; [reflexivity|].
    unfold where_clause_with, ComposedQual.where_clause,
      ComposedQual.__str__. cbn [ComposedQual.set__quals ComposedQual._quals].
    rewrite fmap_app. cbn [fmap list_fmap]. rewrite concat_snoc.
    destruct (ComposedQual._quals cq) as [|p parts]; reflexivity.
Qed.

Lemma where_clause_append_witness :
  exists cq',
    ComposedQual.append (holding [part_on "a" "="]) (IsResolvedQual (part_on "b" "<"))
    = Ok cq'
    /\ ComposedQual.where_clause cq' = "WHERE t.a = ? AND t.b < ?".
Proof.
  destruct (proj2 (where_clause_append (holding [part_on "a" "="])
                     (part_on "b" "<")))
    as (cq' & Happ & Hclause).
  exists cq'. split; [exact Happ|]. rewrite Hclause. reflexivity.
Defined.

End QualsMoreFacts.

(** ** The indexes proposed and their statements *)

Section ProposerFacts.
Import Hypo HypoSpec Proposer ProposerSpec Examples.

Lemma possible_indexes_groups (cq : ComposedQual.t)
    (indexes : list HypoIndex.t) :
  possible_indexes cq = Ok indexes ->
  Forall2 index_for (group_by_am cq) indexes.
Proof.
  unfold possible_indexes. intros H.
  destruct (make_indexes_ok (group_by_am cq) []) as (indexes' & Hok & Hall).
  { apply Forall_forall. intros [am quals] Hin.
    apply group_by_am_elem in Hin as [_ Hne]. exact Hne. }
  rewrite Hok in H. injection H as <-. exact Hall.
Qed.

(** An index made by [possible_indexes] holds the parts appended under
    its method, and is on the schema and relation of the first. *)
Lemma possible_indexes_elem (cq : ComposedQual.t)
    (indexes : list HypoIndex.t) (index : HypoIndex.t) :
  possible_indexes cq = Ok indexes ->
  index ∈ indexes ->
  exists base rest,
    index = HypoIndex.__init__ (ResolvedQual.nspname base)
              (ResolvedQual.relname base) (HypoIndex.amname index)
              (Some (base :: rest))
    /\ base :: rest
       = appended (HypoIndex.amname index) (appends (ComposedQual._quals cq)).
Proof.
  intros Hall%possible_indexes_groups [i Hi]%list_elem_of_lookup.
  destruct (Forall2_lookup_r _ _ _ _ _ Hall Hi)
    as ([am quals] & Hitem & base & rest & Hq & ->).
  simpl in Hq. subst quals.
  apply list_elem_of_lookup_2, group_by_am_elem in Hitem as [Hg _].
  exists base, rest. split; [reflexivity | exact Hg].
Qed.



(** *** The order of the indexes *)

Lemma by_am_keys_foldl (es : list (string * part)) : forall by_am,
  (foldl by_am_step by_am es).*1
  = foldl (fun seen a => if decide (a ∈ seen) then seen else seen ++ [a])
      by_am.*1 es.*1.
Proof.
  induction es as [|[am q] es IH]; intros by_am; [reflexivity|].
  rewrite fmap_cons. cbn [foldl fst]. rewrite IH.
  unfold by_am_step. cbn [fst snd]. rewrite by_am_keys_append. reflexivity.
Qed.

Lemma appends_keys (parts : list part) :
  (appends parts).*1 = parts ≫= names.
Proof.
  unfold appends. induction parts as [|q parts IH]; [reflexivity|].
  rewrite !bind_cons, fmap_app, IH. f_equal.
  rewrite <- list_fmap_compose. apply list_fmap_id.
Qed.

(** X14: the indexes come in the order in which their access methods
    are first met when the parts are gone through in order, each part's
    methods in the order it lists them. *)
Theorem possible_indexes_order (cq : ComposedQual.t)
    (indexes : list HypoIndex.t) :
  possible_indexes cq = Ok indexes ->
  HypoIndex.amname <$> indexes
  = first_seen (ComposedQual._quals cq ≫= names).
Proof.
  intros Hall%possible_indexes_groups.
  rewrite (index_for_amnames _ _ Hall), group_by_am_appends.
  rewrite by_am_keys_foldl, appends_keys. reflexivity.
Qed.

Lemma possible_indexes_order_witness :
  HypoIndex.amname
    <$> [HypoIndex.__init__ "s" "t" "btree"
           (Some [part_supporting "a" ["btree"; "gist"];
                  part_supporting "b" ["brin"; "btree"]]);
         HypoIndex.__init__ "s" "t" "gist"
           (Some [part_supporting "a" ["btree"; "gist"]]);
         HypoIndex.__init__ "s" "t" "brin"
           (Some [part_supporting "b" ["brin"; "btree"]])]
  = first_seen ["btree"; "gist"; "brin"; "btree"].
Proof.
  apply (possible_indexes_order
           (composed_of [part_supporting "a" ["btree"; "gist"];
                         part_supporting "b" ["brin"; "btree"]])).
  reflexivity.
Defined.

End ProposerFacts.

(** ** From the rows to the indexes *)

Section PipelineFacts.
Import Quals QualsSpec QualsMore.

(** X15: every index proposed for a composed qual that
    [resolve_quals] returned is on the relation the composed qual
    carries, and the composed qual has a part: for a row without a
    kept reference no index is proposed. *)
Theorem proposed_indexes_on_relation
    (db : database) (quallist : iterable) (log log' : connection)
    (out : list ComposedQual.t) (cq : ComposedQual.t)
    (indexes : list Hypo.HypoIndex.t) (index : Hypo.HypoIndex.t) :
  resolve_quals db quallist log = (Ok out, log') ->
  cq ∈ out ->
  Hypo.possible_indexes cq = Ok indexes ->
  index ∈ indexes ->
  ComposedQual.relname cq = Some (Hypo.HypoIndex.relname index)
  /\ ComposedQual._quals cq <> [].
Proof.
  intros H Hcq Hok Hin.
  destruct (lookup_catalogs_returns db (rows_of quallist) log)
    as (operators & attnames & log1 & Hl).
  rewrite (resolve_quals_unfold _ _ _ _ _ _ Hl) in H.
  injection H as H _.
  pose proof (resolve_rows_Forall operators attnames on_one_relation
                (resolve_row_one_relation operators attnames) _ _ _ H
                (Forall_nil_2 _)) as Hall.
  rewrite Forall_forall in Hall. specialize (Hall cq Hcq).
  destruct (possible_indexes_elem cq indexes index Hok Hin)
    as (base & rest & -> & Hparts).
  assert (Hbase : base ∈ ComposedQual._quals cq).
  { eapply proj1. eapply appended_elem. rewrite <- Hparts.
    apply list_elem_of_here. }
  unfold on_one_relation in Hall.
  destruct (ComposedQual._quals cq) as [|q parts]; [inversion Hbase|].
  destruct Hall as (Hrel & _ & Hsame). split; [|discriminate].
  rewrite Hrel. cbn [Hypo.HypoIndex.__init__ Hypo.HypoIndex.relname].
  apply elem_of_cons in Hbase as [->|Hbase]; [reflexivity|].
  rewrite Forall_forall in Hsame. rewrite (Hsame base Hbase). reflexivity.
Qed.

Lemma proposed_indexes_on_relation_witness :
  exists out cq indexes index,
    (resolve_quals known_db
       (Sequence [row_with (QList [table_ref "96" 1])]) []).1
    = Ok out
    /\ cq ∈ out
    /\ Hypo.possible_indexes cq = Ok indexes
    /\ index ∈ indexes
    /\ ComposedQual.relname cq = Some (Hypo.HypoIndex.relname index)
    /\ Hypo.HypoIndex.relname index = "t".
Proof.
  destruct (resolve_quals known_db
              (Sequence [row_with (QList [table_ref "96" 1])]) [])
    as [[out|e] log'] eqn:H; [|vm_compute in H; discriminate H].
  destruct out as [|cq out]; [vm_compute in H; discriminate H|].
  destruct (Hypo.possible_indexes cq) as [indexes|e] eqn:Hok;
    [|vm_compute in H; injection H as <- _ _; vm_compute in Hok;
      discriminate Hok].
  destruct indexes as [|index indexes];
    [vm_compute in H; injection H as <- _ _; vm_compute in Hok;
     discriminate Hok|].
  exists (cq :: out), cq, (index :: indexes), index.
  split; [reflexivity|]. split; [apply list_elem_of_here|].
  split; [exact Hok|]. split; [apply list_elem_of_here|].
  split.
  - apply (proposed_indexes_on_relation known_db
             (Sequence [row_with (QList [table_ref "96" 1])]) [] log'
             (cq :: out) cq
             (index :: indexes) index H (list_elem_of_here _ _) Hok
             (list_elem_of_here _ _)).
  - vm_compute in H. injection H as <- _ _. vm_compute in Hok.
    injection Hok as <- _. reflexivity.
Defined.

End PipelineFacts.

(** ** qual_constants, the criteria it knows *)

Section ConstantsMoreFacts.
Import Constants ConstantsMore Examples.

(** X16: for one of the three criteria [qual_constants] never returns
    [None] and the order of the criterion is always found.  It raises
    in three cases only: when compiling the clause raises, with that
    exception, and when a parameter of the compiled clause is named
    top_value or self, with TypeError, so the caller's parameter
    cannot replace the limit; in every other case it returns a query
    whose parameters are the limit followed by the clause's. *)
Theorem qual_constants_raises (type : string)
    (filter_clause : clause_element) (top : pyval) :
  type ∈ criteria ->
  (forall e, compile filter_clause = Raise e ->
     qual_constants type filter_clause top = Raise e)
  /\ (forall c, compile filter_clause = Ok c ->
        ("top_value" ∈ (params c).*1 \/ "self" ∈ (params c).*1 ->
         qual_constants type filter_clause top = Raise TypeError)
        /\ ("top_value" ∉ (params c).*1 -> "self" ∉ (params c).*1 ->
            exists query,
              qual_constants type filter_clause top = Ok (Some query)
              /\ columns query = ["*"]
              /\ bound (from_obj query) = ("top_value", top) :: params c)).
Proof.
  intros Hin. destruct (orders_criteria type Hin) as [order Ho].
  unfold qual_constants.
  destruct (decide (type ∉ criteria)) as [Hout|_]; [contradiction|].
  split.
  - intros e He. rewrite He. reflexivity.
  - intros c Hc. rewrite Hc. simpl. unfold getitem. rewrite Ho. simpl.
    unfold with_params. split.
    + intros Hclash.
      destruct (decide ("top_value" ∈ (params c).*1)); [reflexivity|].
      destruct (decide ("self" ∈ (params c).*1)); [reflexivity|].
      destruct Hclash; contradiction.
    + intros Htop Hself.
      destruct (decide ("top_value" ∈ (params c).*1)); [contradiction|].
      destruct (decide ("self" ∈ (params c).*1)); [contradiction|].
      eexists. split; [reflexivity|]. split; reflexivity.
Qed.

Lemma qual_constants_raises_witness :
  qual_constants "most_executed" raising_clause (PNum (PyInt 1))
  = Raise CompileError
  /\ qual_constants "least_filtering" clashing_clause (PNum (PyInt 1))
     = Raise TypeError
  /\ qual_constants "most_filtering" self_clause (PNum (PyInt 1))
     = Raise TypeError.
Proof.
  split; [|split].
  - apply (proj1 (qual_constants_raises "most_executed" raising_clause
                    (PNum (PyInt 1))
                    (proj2 (criteria_elem "most_executed")
                       (or_introl eq_refl)))).
    reflexivity.
  - apply (proj1 (proj2 (qual_constants_raises "least_filtering"
                           clashing_clause (PNum (PyInt 1))
                           (proj2 (criteria_elem "least_filtering")
                              (or_intror (or_intror eq_refl))))
                    {| compiled_str := "rownumber <= :top_value";
                       params := [("top_value", PNum (PyInt 5))] |}
                    eq_refl)).
    left. apply list_elem_of_here.
  - apply (proj1 (proj2 (qual_constants_raises "most_filtering"
                           self_clause (PNum (PyInt 1))
                           (proj2 (criteria_elem "most_filtering")
                              (or_intror (or_introl eq_refl))))
                    {| compiled_str := "owner = :self";
                       params := [("self", PStr "bench")] |}
                    eq_refl)).
    right. apply list_elem_of_here.
Defined.

End ConstantsMoreFacts.
